(** * A model of [src/main/event.py] of cvent-webhook-handler

    Python values are modelled as follows.
    - A JSON document (a webhook body, a payload, the content of a record
      file) is the inductive [json]; a JSON object is its list of
      (key, value) pairs, looked up the way a Python dict built by
      [json.loads] is (the last duplicate key wins).
    - Python [str] values are Rocq strings holding their UTF-8 encoding;
      equality of two such strings is equality of the Python strings.
    - The dicts of [Database] are stdpp [gmap]s keyed by the stub.  Python
      dicts also keep insertion order; the only place where the model
      iterates over them is [save], whose writes go to pairwise distinct
      files, so the order does not show in any result.
    - Exceptions are the constructors of [py_error]; a function that can
      raise returns a [result]. *)

From stdpp Require Import base gmap strings list fin_maps sorting.
From Stdlib Require Import Ascii String ZArith Lia.

Open Scope string_scope.
Set Warnings "-register-all".

(* ------------------------------------------------------------------ *)
(** ** JSON values and Python exceptions *)

Inductive json : Type :=
| JNull
| JBool (b : bool)
| JNum (n : Z)
| JStr (s : string)
| JArr (l : list json)
| JObj (kvs : list (string * json)).

(** [d.get(k)] on a dict decoded from a JSON object: the last binding of
    [k] is the one the dict holds. *)
Fixpoint dict_get (k : string) (kvs : list (string * json)) : option json :=
  match kvs with
  | [] => None
  | (k', v) :: rest =>
      match dict_get k rest with
      | Some x => Some x
      | None => if String.eqb k k' then Some v else None
      end
  end.

Inductive py_error : Type :=
| KeyError (key : string)
| TypeError
| ValueError_unpack                 (** [first, *rest = []] *)
| ValidationError                   (** pydantic's ValidationError *)
| ValueError_unrecognized (event_type : json)
    (** [ValueError(f"Unrecognized event type {event_type!r}")] *)
| UnboundLocalError (name : string).

Inductive result (A : Type) : Type :=
| Ok (a : A)
| Err (e : py_error).
Arguments Ok {A} a.
Arguments Err {A} e.

Definition rbind {A B} (m : result A) (k : A -> result B) : result B :=
  match m with Ok a => k a | Err e => Err e end.

Notation "'let?' x ':=' m 'in' k" := (rbind m (fun x => k))
  (at level 200, x name, m at level 100, k at level 200).

(** [v[k]] with a string key: a dict raises KeyError on a missing key;
    a list or a str raises TypeError (indices must be integers), and so
    does a number, a bool or None (not subscriptable). *)
Definition getitem (v : json) (k : string) : result json :=
  match v with
  | JObj kvs => match dict_get k kvs with Some x => Ok x | None => Err (KeyError k) end
  | _ => Err TypeError
  end.

(** The characters of a string, one string each, as iterating a Python
    [str] yields them (ASCII model). *)
Fixpoint str_chars (s : string) : list json :=
  match s with
  | EmptyString => []
  | String c s' => JStr (String c EmptyString) :: str_chars s'
  end.

(** [first, *others = v]: unpacking iterates [v]; a list yields its
    items, a str its characters, a dict its keys; the other JSON values
    are not iterable.  An empty iteration cannot fill [first]. *)
Definition unpack_first (v : json) : result (json * list json) :=
  let items :=
    match v with
    | JArr l => Ok l
    | JStr s => Ok (str_chars s)
    | JObj kvs => Ok (map (fun kv => JStr (fst kv)) kvs)
    | _ => Err TypeError
    end in
  let? l := items in
  match l with
  | [] => Err ValueError_unpack
  | x :: rest => Ok (x, rest)
  end.

(** Python [v == "lit"] for a JSON value and a str literal. *)
Definition is_str (v : json) (lit : string) : bool :=
  match v with JStr s => String.eqb s lit | _ => false end.

(* ------------------------------------------------------------------ *)
(** ** [camel_case] (event.py, lines 18-20) *)

Definition ascii_upper (c : ascii) : ascii :=
  let n := nat_of_ascii c in
  if (97 <=? n)%nat && (n <=? 122)%nat then ascii_of_nat (n - 32) else c.

Definition ascii_lower (c : ascii) : ascii :=
  let n := nat_of_ascii c in
  if (65 <=? n)%nat && (n <=? 90)%nat then ascii_of_nat (n + 32) else c.

Fixpoint str_lower (s : string) : string :=
  match s with
  | EmptyString => EmptyString
  | String c s' => String (ascii_lower c) (str_lower s')
  end.

(** [str.capitalize] on ASCII text: the first character upper-cased, the
    rest lower-cased. *)
Definition str_capitalize (s : string) : string :=
  match s with
  | EmptyString => EmptyString
  | String c s' => String (ascii_upper c) (str_lower s')
  end.

(** [s.split("_")]: never empty; "" gives [""], and every "_" starts a
    new (possibly empty) segment. *)
Fixpoint split_underscore (s : string) : list string :=
  match s with
  | EmptyString => [EmptyString]
  | String c s' =>
      let parts := split_underscore s' in
      if Ascii.eqb c "_"%char then EmptyString :: parts
      else match parts with
           | p :: ps => String c p :: ps
           | [] => [String c EmptyString]
           end
  end.

Definition str_join (parts : list string) : string :=
  fold_right String.append EmptyString parts.

Definition camel_case (name : string) : string :=
  match split_underscore name with
  | first :: rest => String.append first (str_join (map str_capitalize rest))
  | [] => name  (* unreachable: split never returns an empty list *)
  end.


(* ------------------------------------------------------------------ *)
(** ** Field values: datetime and date *)

(** A Python [datetime]: its wall-clock reading (in microseconds) and its
    UTC offset (in microseconds), [None] for a naive datetime. *)
Record datetime := mk_datetime { dt_wall : Z; dt_utcoffset : option Z }.

(** Python [==] on datetimes: two aware datetimes are equal when they
    denote the same instant, two naive ones when their readings agree,
    and an aware one never equals a naive one. *)
Definition datetime_eqb (a b : datetime) : bool :=
  match dt_utcoffset a, dt_utcoffset b with
  | Some oa, Some ob => Z.eqb (dt_wall a - oa) (dt_wall b - ob)
  | None, None => Z.eqb (dt_wall a) (dt_wall b)
  | _, _ => false
  end.

(** A Python [date], as its proleptic Gregorian ordinal. *)
Definition date := Z.

Fixpoint str_list_eqb (a b : list string) : bool :=
  match a, b with
  | [], [] => true
  | x :: a', y :: b' => String.eqb x y && str_list_eqb a' b'
  | _, _ => false
  end.

(** What pydantic does with a JSON value for a field of a given type
    (validation and coercion), and how [.json()] writes a value of that
    type.  This depends on the pydantic version in use (pydantic 1 turns
    a JSON number into a str, pydantic 2 refuses it; both read ISO 8601
    and Unix times as datetimes), so it is a class, not a fixed choice.
    A str is always written as the JSON string itself. *)
Class FieldCodec := {
  coerce_str : json -> option string;
  coerce_datetime : json -> option datetime;
  coerce_date : json -> option date;
  encode_datetime : datetime -> json;
  encode_date : date -> json
}.

(** [list[str]]: a JSON array whose items all pass as str. *)
Fixpoint coerce_items `{FieldCodec} (l : list json) : option (list string) :=
  match l with
  | [] => Some []
  | x :: rest =>
      match coerce_str x, coerce_items rest with
      | Some s, Some ss => Some (s :: ss)
      | _, _ => None
      end
  end.

Definition coerce_str_list `{FieldCodec} (v : json) : option (list string) :=
  match v with JArr l => coerce_items l | _ => None end.

(* ------------------------------------------------------------------ *)
(** ** [SessionData] and [SpeakerData] (lines 23-51) *)

Module SessionData.
Record t := mk {
  session_description : string;
  session_end_date_time : datetime;
  session_name : string;
  session_start_date_time : datetime;
  session_stub : string;
  speaker_category : list string;
  speakers : list string;
  timezone_name : string;
  updated_date : date
}.

(** The field names, in declaration order. *)
Definition field_names : list string :=
  ["session_description"; "session_end_date_time"; "session_name";
   "session_start_date_time"; "session_stub"; "speaker_category";
   "speakers"; "timezone_name"; "updated_date"].

(** [==] of two models: field by field, each with Python's [==]. *)
Definition eqb (a b : t) : bool :=
  String.eqb (session_description a) (session_description b)
  && datetime_eqb (session_end_date_time a) (session_end_date_time b)
  && String.eqb (session_name a) (session_name b)
  && datetime_eqb (session_start_date_time a) (session_start_date_time b)
  && String.eqb (session_stub a) (session_stub b)
  && str_list_eqb (speaker_category a) (speaker_category b)
  && str_list_eqb (speakers a) (speakers b)
  && String.eqb (timezone_name a) (timezone_name b)
  && Z.eqb (updated_date a) (updated_date b).
End SessionData.

Module SpeakerData.
Record t := mk {
  presenter_at : list string;
  speaker_biography : string;
  speaker_display_name : string;
  speaker_first_name : string;
  speaker_last_name : string;
  speaker_stub : string;
  speaker_title : string;
  updated_date : date
}.

Definition field_names : list string :=
  ["presenter_at"; "speaker_biography"; "speaker_display_name";
   "speaker_first_name"; "speaker_last_name"; "speaker_stub";
   "speaker_title"; "updated_date"].

Definition eqb (a b : t) : bool :=
  str_list_eqb (presenter_at a) (presenter_at b)
  && String.eqb (speaker_biography a) (speaker_biography b)
  && String.eqb (speaker_display_name a) (speaker_display_name b)
  && String.eqb (speaker_first_name a) (speaker_first_name b)
  && String.eqb (speaker_last_name a) (speaker_last_name b)
  && String.eqb (speaker_stub a) (speaker_stub b)
  && String.eqb (speaker_title a) (speaker_title b)
  && Z.eqb (updated_date a) (updated_date b).
End SpeakerData.

Section Codec.
Context `{FieldCodec}.

(** A required field: read under its alias [camel_case name]; absent or
    not coercible is a validation error. *)
Definition field_req {A} (kvs : list (string * json)) (name : string)
    (coerce : json -> option A) : result A :=
  match dict_get (camel_case name) kvs with
  | Some v => match coerce v with Some a => Ok a | None => Err ValidationError end
  | None => Err ValidationError
  end.

(** A field with a default ([= []]). *)
Definition field_opt {A} (kvs : list (string * json)) (name : string)
    (coerce : json -> option A) (default : A) : result A :=
  match dict_get (camel_case name) kvs with
  | Some v => match coerce v with Some a => Ok a | None => Err ValidationError end
  | None => Ok default
  end.

(** [SessionData( ** kvs)]: validation by alias (the alias generator is
    [camel_case]); keys that are no alias are ignored. *)
Definition parse_session_obj (kvs : list (string * json)) : result SessionData.t :=
  let? d := field_req kvs "session_description" coerce_str in
  let? e := field_req kvs "session_end_date_time" coerce_datetime in
  let? n := field_req kvs "session_name" coerce_str in
  let? s := field_req kvs "session_start_date_time" coerce_datetime in
  let? st := field_req kvs "session_stub" coerce_str in
  let? sc := field_opt kvs "speaker_category" coerce_str_list [] in
  let? sp := field_opt kvs "speakers" coerce_str_list [] in
  let? tz := field_req kvs "timezone_name" coerce_str in
  let? u := field_req kvs "updated_date" coerce_date in
  Ok (SessionData.mk d e n s st sc sp tz u).

Definition parse_speaker_obj (kvs : list (string * json)) : result SpeakerData.t :=
  let? pa := field_opt kvs "presenter_at" coerce_str_list [] in
  let? b := field_req kvs "speaker_biography" coerce_str in
  let? dn := field_req kvs "speaker_display_name" coerce_str in
  let? fn := field_req kvs "speaker_first_name" coerce_str in
  let? ln := field_req kvs "speaker_last_name" coerce_str in
  let? st := field_req kvs "speaker_stub" coerce_str in
  let? ti := field_req kvs "speaker_title" coerce_str in
  let? u := field_req kvs "updated_date" coerce_date in
  Ok (SpeakerData.mk pa b dn fn ln st ti u).

(** [SessionData( ** message)] (lines 251, 254) and [SpeakerData( ** message)]
    (lines 260, 263): keyword unpacking needs a mapping. *)
Definition SessionData_call (message : json) : result SessionData.t :=
  match message with JObj kvs => parse_session_obj kvs | _ => Err TypeError end.

Definition SpeakerData_call (message : json) : result SpeakerData.t :=
  match message with JObj kvs => parse_speaker_obj kvs | _ => Err TypeError end.

(** [SessionData.parse_file(path)] (line 132): a file whose content is
    not a JSON object fails validation as well. *)
Definition parse_file_session (content : json) : result SessionData.t :=
  match content with JObj kvs => parse_session_obj kvs | _ => Err ValidationError end.

Definition parse_file_speaker (content : json) : result SpeakerData.t :=
  match content with JObj kvs => parse_speaker_obj kvs | _ => Err ValidationError end.

Definition json_str_list (l : list string) : json := JArr (map JStr l).

(** [data.json(by_alias=True)] (lines 192, 198): the fields in
    declaration order, each under [camel_case] of its name. *)
Definition encode_session (d : SessionData.t) : json :=
  JObj [(camel_case "session_description", JStr (SessionData.session_description d));
        (camel_case "session_end_date_time", encode_datetime (SessionData.session_end_date_time d));
        (camel_case "session_name", JStr (SessionData.session_name d));
        (camel_case "session_start_date_time", encode_datetime (SessionData.session_start_date_time d));
        (camel_case "session_stub", JStr (SessionData.session_stub d));
        (camel_case "speaker_category", json_str_list (SessionData.speaker_category d));
        (camel_case "speakers", json_str_list (SessionData.speakers d));
        (camel_case "timezone_name", JStr (SessionData.timezone_name d));
        (camel_case "updated_date", encode_date (SessionData.updated_date d))].

Definition encode_speaker (d : SpeakerData.t) : json :=
  JObj [(camel_case "presenter_at", json_str_list (SpeakerData.presenter_at d));
        (camel_case "speaker_biography", JStr (SpeakerData.speaker_biography d));
        (camel_case "speaker_display_name", JStr (SpeakerData.speaker_display_name d));
        (camel_case "speaker_first_name", JStr (SpeakerData.speaker_first_name d));
        (camel_case "speaker_last_name", JStr (SpeakerData.speaker_last_name d));
        (camel_case "speaker_stub", JStr (SpeakerData.speaker_stub d));
        (camel_case "speaker_title", JStr (SpeakerData.speaker_title d));
        (camel_case "updated_date", encode_date (SpeakerData.updated_date d))].

End Codec.

(* ------------------------------------------------------------------ *)
(** ** Wrappers and the store (lines 54-125) *)

Inductive SpeakerCategory := COMPOSER | PERFORMER | PRESENTER.

Module Session.
Record t := mk { data : SessionData.t; updated : bool; deleted : bool }.
Definition stub (s : t) : string := SessionData.session_stub (data s).
Definition filename (s : t) : string := String.append (stub s) ".json".
(** [Session(data)]: [updated=True], [deleted=False] by default. *)
Definition new (d : SessionData.t) : t := mk d true false.
End Session.

Module Speaker.
Record t := mk {
  data : SpeakerData.t;
  categories : list SpeakerCategory;
  updated : bool;
  deleted : bool
}.
Definition stub (s : t) : string := SpeakerData.speaker_stub (data s).
Definition filename (s : t) : string := String.append (stub s) ".json".
Definition new (d : SpeakerData.t) (cs : list SpeakerCategory) : t := mk d cs true false.
End Speaker.

Record Database := mk_db {
  sessions : gmap string Session.t;
  speakers : gmap string Speaker.t;
  speaker_categories : gmap string (list SpeakerCategory)
}.

Definition set_sessions (db : Database) (m : gmap string Session.t) : Database :=
  mk_db m (speakers db) (speaker_categories db).
Definition set_speakers (db : Database) (m : gmap string Speaker.t) : Database :=
  mk_db (sessions db) m (speaker_categories db).

(* ------------------------------------------------------------------ *)
(** ** Store operations (lines 201-238)

    Each returns the store after the call and the returned bool.  The
    wrapper found by [self.sessions.get(stub)] is the object held in the
    dict, so mutating it is writing the changed wrapper back under its
    key. *)

Definition delete_session (stub : string) (db : Database) : Database * bool :=
  match sessions db !! stub with
  | Some existing =>
      (set_sessions db (<[stub := Session.mk (Session.data existing)
                                   (Session.updated existing) true]> (sessions db)), true)
  | None => (db, false)
  end.

Definition delete_speaker (stub : string) (db : Database) : Database * bool :=
  match speakers db !! stub with
  | Some existing =>
      (set_speakers db (<[stub := Speaker.mk (Speaker.data existing)
                                   (Speaker.categories existing)
                                   (Speaker.updated existing) true]> (speakers db)), true)
  | None => (db, false)
  end.

Definition update_session (data : SessionData.t) (db : Database) : Database * bool :=
  let key := SessionData.session_stub data in
  match sessions db !! key with
  | Some existing =>
      if SessionData.eqb (Session.data existing) data then (db, false)
      else (set_sessions db (<[key := Session.mk data true (Session.deleted existing)]>
                               (sessions db)), true)
  | None =>
      let session := Session.new data in
      (set_sessions db (<[Session.stub session := session]> (sessions db)), true)
  end.

Definition update_speaker (data : SpeakerData.t) (db : Database) : Database * bool :=
  let key := SpeakerData.speaker_stub data in
  match speakers db !! key with
  | Some existing =>
      if SpeakerData.eqb (Speaker.data existing) data then (db, false)
      else (set_speakers db (<[key := Speaker.mk data (Speaker.categories existing)
                                        true (Speaker.deleted existing)]>
                               (speakers db)), true)
  | None =>
      let categories := default [] (speaker_categories db !! key) in
      let speaker := Speaker.new data categories in
      (set_speakers db (<[Speaker.stub speaker := speaker]> (speakers db)), true)
  end.

(* ------------------------------------------------------------------ *)
(** ** [handle_event] (lines 241-280)

    A state and exception monad: the state is the store and the list of
    messages handed to [notify_about_circle_registration] (whose mail is
    sent through Mailgun, outside this model).  An exception leaves the
    state as it was when it was raised. *)

Definition hstate := (Database * list json)%type.
Definition M (A : Type) := hstate -> result A * hstate.

Definition ret {A} (a : A) : M A := fun st => (Ok a, st).
Definition raise {A} (e : py_error) : M A := fun st => (Err e, st).
Definition bind {A B} (m : M A) (k : A -> M B) : M B :=
  fun st => match m st with
            | (Ok a, st') => k a st'
            | (Err e, st') => (Err e, st')
            end.
Definition lift {A} (r : result A) : M A :=
  match r with Ok a => ret a | Err e => raise e end.
Definition on_db {A} (f : Database -> Database * A) : M A :=
  fun '(db, sent) => let '(db', a) := f db in (Ok a, (db', sent)).
Definition notify_about_circle_registration (message : json) : M unit :=
  fun '(db, sent) => (Ok tt, (db, app sent [message])).

Notation "'let*' x ':=' m 'in' k" := (bind m (fun x => k))
  (at level 200, x name, m at level 100, k at level 200).

(** The admission item that triggers the notification, as written on
    line 269. *)
Definition circle_admission_item : string :=
  "Convention Registration â€“ SF Select Circle".

Section HandleEvent.
Context `{FieldCodec}.

(** The local [changed] is [None] until it is assigned; [return changed]
    on an unassigned local raises UnboundLocalError. *)
Definition handle_event (event : json) : M bool :=
  let* event_type := lift (getitem event "eventType") in
  let* msgs := lift (getitem event "message") in
  let* unpacked := lift (unpack_first msgs) in
  let message := fst unpacked in
  let* changed :=
    if is_str event_type "SessionCreated" then
      let* session := lift (SessionData_call message) in
      let* c := on_db (update_session session) in ret (Some c)
    else if is_str event_type "SessionUpdated" then
      let* session := lift (SessionData_call message) in
      let* c := on_db (update_session session) in ret (Some c)
    else if is_str event_type "SessionDeleted" then
      let* session_stub := lift (getitem message "sessionStub") in
      (* [dict.get]: a list or dict is unhashable (TypeError); a
         number, bool or None is never equal to a str key *)
      match session_stub with
      | JStr s => let* c := on_db (delete_session s) in ret (Some c)
      | JArr _ | JObj _ => raise TypeError
      | _ => ret (Some false)
      end
    else if is_str event_type "SpeakerCreated" then
      let* speaker := lift (SpeakerData_call message) in
      let* c := on_db (update_speaker speaker) in ret (Some c)
    else if is_str event_type "SpeakerUpdated" then
      let* speaker := lift (SpeakerData_call message) in
      let* c := on_db (update_speaker speaker) in ret (Some c)
    else if is_str event_type "SpeakerDeleted" then
      let* speaker_stub := lift (getitem message "speakerStub") in
      match speaker_stub with
      | JStr s => let* c := on_db (delete_speaker s) in ret (Some c)
      | JArr _ | JObj _ => raise TypeError
      | _ => ret (Some false)
      end
    else if is_str event_type "InviteeOrGuestAccepted" then
      let* item := lift (getitem message "admissionItem") in
      if is_str item circle_admission_item then
        let* _ := notify_about_circle_registration message in ret None
      else ret None
    else raise (ValueError_unrecognized event_type) in
  match changed with
  | Some c => ret c
  | None => raise (UnboundLocalError "changed")
  end.

End HandleEvent.

(* ------------------------------------------------------------------ *)
(** ** [Database.load] (lines 127-184)

    A collection directory is given by what [iterdir()] yields from it,
    in that order: the file names with the JSON documents they hold, or
    [None] when the directory does not exist (FileNotFoundError, caught
    and logged).  The log records the warnings [load] emits.  The model
    covers directories whose entries are files of JSON text: an entry
    that is not (a subdirectory, bytes that are not UTF-8 JSON, a ".pkl"
    name) makes [parse_file] raise another exception (IsADirectoryError,
    JSONDecodeError, ...), which this model does not describe. *)

Inductive load_warning :=
| DuplicateSessionStub (stub : string)
| UnknownSpeakerCategory (label : string)
| SessionsNotFound
| DuplicateSpeakerStub (stub : string)
| SpeakersNotFound.

(** The [if]/[elif] chain of lines 144-167, deciding which category (if
    any) a role label appends to the speaker's list. *)
Definition category_of_label (category : string) : option SpeakerCategory :=
  if String.eqb category "Organist" || String.eqb category "Performer" then Some PERFORMER
  else if String.eqb category "New Music Composer" then Some COMPOSER
  else if String.eqb category "Speaker" || String.eqb category "Panelist"
          || String.eqb category "Presenter" || String.eqb category "Workshop Presenter"
          || String.eqb category "Moderator" then Some PRESENTER
  else None.

Definition load_acc := (Database * list load_warning)%type.
Definition index_acc := (gmap string (list SpeakerCategory) * list load_warning)%type.

(** One pass of the inner [for speaker_stub, category in zip(...)] loop:
    [setdefault(speaker_stub, []).append(c)], or a warning. *)
Definition classify_pair (acc : index_acc) (pair : string * string) : index_acc :=
  let '(idx, log) := acc in
  let '(speaker_stub, category) := pair in
  match category_of_label category with
  | Some c => (<[speaker_stub := app (default [] (idx !! speaker_stub)) [c]]> idx, log)
  | None => (idx, app log [UnknownSpeakerCategory category])
  end.

Fixpoint fold_result {A B} (f : A -> B -> result A) (l : list B) (a : A) : result A :=
  match l with
  | [] => Ok a
  | b :: rest => let? a' := f a b in fold_result f rest a'
  end.

Section Load.
Context `{FieldCodec}.

(** One pass of the outer loop over [sessions/] (lines 131-167). *)
Definition load_session_file (acc : load_acc) (entry : string * json) : result load_acc :=
  let '(db, log) := acc in
  let? d := parse_file_session (snd entry) in
  let session := Session.mk d false false in
  let log := if decide (is_Some (sessions db !! Session.stub session))
             then app log [DuplicateSessionStub (Session.stub session)] else log in
  let db := set_sessions db (<[Session.stub session := session]> (sessions db)) in
  let '(idx, log) :=
    fold_left classify_pair
      (combine (SessionData.speakers d) (SessionData.speaker_category d))
      (speaker_categories db, log) in
  Ok (mk_db (sessions db) (speakers db) idx, log).

(** One pass of the loop over [speakers/] (lines 171-181). *)
Definition load_speaker_file (acc : load_acc) (entry : string * json) : result load_acc :=
  let '(db, log) := acc in
  let? d := parse_file_speaker (snd entry) in
  let categories := default [] (speaker_categories db !! SpeakerData.speaker_stub d) in
  let speaker := Speaker.mk d categories false false in
  let log := if decide (is_Some (speakers db !! Speaker.stub speaker))
             then app log [DuplicateSpeakerStub (Speaker.stub speaker)] else log in
  Ok (set_speakers db (<[Speaker.stub speaker := speaker]> (speakers db)), log).

Definition empty_db : Database := mk_db ∅ ∅ ∅.

Definition load (ls_sessions ls_speakers : option (list (string * json)))
    : result load_acc :=
  let? acc :=
    match ls_sessions with
    | Some l => fold_result load_session_file l (empty_db, [])
    | None => Ok (empty_db, [SessionsNotFound])
    end in
  match ls_speakers with
  | Some l => fold_result load_speaker_file l acc
  | None => Ok (fst acc, app (snd acc) [SpeakersNotFound])
  end.

(* ------------------------------------------------------------------ *)
(** ** [Database.save] (lines 186-199)

    The files of a collection directory as a map from file name to the
    JSON document the file holds; [None] when the directory is absent.
    [save] returns the writes it performs, in order; [run_save] applies
    them to a file system. *)

Inductive collection := Sessions | Speakers.

#[global] Instance collection_eq_dec : EqDecision collection.
Proof. solve_decision. Defined.

Record FS := mk_fs {
  fs_sessions : option (gmap string json);
  fs_speakers : option (gmap string json)
}.

Fixpoint save_sessions_loop (vals : list Session.t) : list (collection * string * json) :=
  match vals with
  | [] => []
  | s :: rest =>
      if Session.updated s
      then (Sessions, Session.filename s, encode_session (Session.data s)) :: save_sessions_loop rest
      else save_sessions_loop rest
  end.

Fixpoint save_speakers_loop (vals : list Speaker.t) : list (collection * string * json) :=
  match vals with
  | [] => []
  | s :: rest =>
      if Speaker.updated s
      then (Speakers, Speaker.filename s, encode_speaker (Speaker.data s)) :: save_speakers_loop rest
      else save_speakers_loop rest
  end.

(** [self.sessions.values()] and [self.speakers.values()]. *)
Definition save (db : Database) : list (collection * string * json) :=
  app (save_sessions_loop (map snd (map_to_list (sessions db))))
      (save_speakers_loop (map snd (map_to_list (speakers db)))).

(** [mkdir(exist_ok=True)] on both collections, then [write_text] for
    each write. *)
Definition write_file (fs : FS) (w : collection * string * json) : FS :=
  let '(c, name, content) := w in
  match c with
  | Sessions => mk_fs (Some (<[name := content]> (default ∅ (fs_sessions fs)))) (fs_speakers fs)
  | Speakers => mk_fs (fs_sessions fs) (Some (<[name := content]> (default ∅ (fs_speakers fs))))
  end.

Definition mkdirs (fs : FS) : FS :=
  mk_fs (Some (default ∅ (fs_sessions fs))) (Some (default ∅ (fs_speakers fs))).

Definition run_save (db : Database) (fs : FS) : FS :=
  fold_left write_file (save db) (mkdirs fs).

Definition fs_file (fs : FS) (c : collection) (name : string) : option json :=
  match c with
  | Sessions => fs_sessions fs ≫= (.!! name)
  | Speakers => fs_speakers fs ≫= (.!! name)
  end.

(** Where [write_text] writes.  [save] writes to
    [data_dir / "sessions" / session.filename] (and speakers/ alike).
    [path_parts] is what pathlib keeps of a relative path string: its
    "/"-separated segments without the empty ones and without "."
    ([".."] is kept and left to the operating system).  [join_path]
    joins such a string to a relative base; an absolute name (one
    starting with "/") discards the base, which is [None] here.  So
    [save_path c name] is the path of the file written, relative to
    [data_dir].

    The map of [FS] is keyed by the file name inside its collection
    directory.  That describes Python's file system for a [plain_name]:
    no "/", no NUL byte, not "", "." or "..", at most 255 bytes.  Such
    a name is one entry of the collection directory ([plain_save_path]),
    two different plain names are two different entries, and
    [write_text] on it creates or replaces that entry.  Other names fall
    outside the map: "./x.json" is the file "x.json", "a/b.json" needs a
    directory sessions/a, a NUL byte or an over-long name makes
    [write_text] raise.  The theorems about what [save] writes assume
    plain file names. *)
Fixpoint split_slash (s : string) : list string :=
  match s with
  | EmptyString => [EmptyString]
  | String c s' =>
      let parts := split_slash s' in
      if Ascii.eqb c "/"%char then EmptyString :: parts
      else match parts with
           | p :: ps => String c p :: ps
           | [] => [String c EmptyString]
           end
  end.

Definition path_parts (p : string) : list string :=
  List.filter (fun seg => negb (String.eqb seg "") && negb (String.eqb seg ".")) (split_slash p).

Definition join_path (base : list string) (name : string) : option (list string) :=
  match name with
  | String c _ => if Ascii.eqb c "/"%char then None else Some (app base (path_parts name))
  | EmptyString => Some base
  end.

Definition collection_dir (c : collection) : string :=
  match c with Sessions => "sessions" | Speakers => "speakers" end.

Definition save_path (c : collection) (name : string) : option (list string) :=
  join_path [collection_dir c] name.

Definition name_char_ok (c : ascii) : bool :=
  negb (Ascii.eqb c "/"%char) && negb (Ascii.eqb c (ascii_of_nat 0)).

Definition plain_name (n : string) : bool :=
  forallb name_char_ok (list_ascii_of_string n)
  && negb (String.eqb n "") && negb (String.eqb n ".") && negb (String.eqb n "..")
  && (String.length n <=? 255)%nat.

(** Every wrapper's file name is a plain name. *)
Definition stubs_plain (db : Database) : bool :=
  forallb (fun kv => plain_name (Session.filename kv.2)) (map_to_list (sessions db))
  && forallb (fun kv => plain_name (Speaker.filename kv.2)) (map_to_list (speakers db)).

(** A directory listing [iterdir()] may yield: every file once, in some
    order. *)
Definition listing_of (d : option (gmap string json)) (l : option (list (string * json))) : Prop :=
  match d, l with
  | Some m, Some l => l ≡ₚ map_to_list m
  | None, None => True
  | _, _ => False
  end.

End Load.

(* ------------------------------------------------------------------ *)
(** ** Stores the program can build

    A store is built by [load] and changed only by the four operations
    ([handle_event] calls nothing else on it). *)

Section Reachable.
Context `{FieldCodec}.

Inductive reachable : Database -> Prop :=
| reach_load ls1 ls2 db log :
    load ls1 ls2 = Ok (db, log) -> reachable db
| reach_update_session d db :
    reachable db -> reachable (fst (update_session d db))
| reach_update_speaker d db :
    reachable db -> reachable (fst (update_speaker d db))
| reach_delete_session s db :
    reachable db -> reachable (fst (delete_session s db))
| reach_delete_speaker s db :
    reachable db -> reachable (fst (delete_speaker s db)).

End Reachable.

(** Every wrapper sits under the key equal to its own stub. *)
Definition keys_ok (db : Database) : Prop :=
  (forall k s, sessions db !! k = Some s -> Session.stub s = k) /\
  (forall k s, speakers db !! k = Some s -> Speaker.stub s = k).

(** The operations a caller may apply to a store. *)
Inductive store_op :=
| OpUpdateSession (d : SessionData.t)
| OpUpdateSpeaker (d : SpeakerData.t)
| OpDeleteSession (stub : string)
| OpDeleteSpeaker (stub : string).

Definition apply_op (op : store_op) (db : Database) : Database * bool :=
  match op with
  | OpUpdateSession d => update_session d db
  | OpUpdateSpeaker d => update_speaker d db
  | OpDeleteSession s => delete_session s db
  | OpDeleteSpeaker s => delete_speaker s db
  end.

(* ------------------------------------------------------------------ *)
(** ** [slugify] (event.py, lines 315-319)

    On ASCII text, which the model's strings hold one character per
    byte: [casefold()] lower-cases A-Z (that is [str_lower]), and the
    class [\w] (which contains [\d]) is [A-Za-z0-9_]. *)

Definition is_word_char (c : ascii) : bool :=
  let n := nat_of_ascii c in
  ((48 <=? n) && (n <=? 57))%nat || ((65 <=? n) && (n <=? 90))%nat
  || ((97 <=? n) && (n <=? 122))%nat || (n =? 95)%nat.

(** [SLUG_REPLACE_PATTERN.sub("-", s)] with the pattern [[^\w\d]+]:
    scanning left to right, each maximal run of characters outside the
    class becomes one "-"; [in_run] tells whether the previous character
    belongs to such a run. *)
Fixpoint slug_sub (in_run : bool) (s : string) : string :=
  match s with
  | EmptyString => EmptyString
  | String c s' =>
      if is_word_char c then String c (slug_sub false s')
      else if in_run then slug_sub true s'
      else String "-" (slug_sub true s')
  end.

(** [s.strip("-")]: every leading and every trailing "-" removed. *)
Fixpoint lstrip_dash (s : string) : string :=
  match s with
  | EmptyString => EmptyString
  | String c s' => if Ascii.eqb c "-" then lstrip_dash s' else s
  end.

Fixpoint rstrip_dash (s : string) : string :=
  match s with
  | EmptyString => EmptyString
  | String c s' =>
      match rstrip_dash s' with
      | EmptyString => if Ascii.eqb c "-" then EmptyString else String c EmptyString
      | r => String c r
      end
  end.

Definition strip_dash (s : string) : string := lstrip_dash (rstrip_dash s).

Definition slugify (s : string) : string := strip_dash (slug_sub false (str_lower s)).

(** The pieces of [s] between the characters outside [\w], as
    [re.split(r"[^\w\d]", s)] gives them (empty pieces included), and
    the non-empty ones: the maximal runs of word characters. *)
Fixpoint split_nonword (s : string) : list string :=
  match s with
  | EmptyString => [EmptyString]
  | String c s' =>
      let parts := split_nonword s' in
      if is_word_char c then
        match parts with
        | p :: ps => String c p :: ps
        | [] => [String c EmptyString]
        end
      else EmptyString :: parts
  end.

Definition word_runs (s : string) : list string :=
  List.filter (fun w => negb (String.eqb w EmptyString)) (split_nonword s).

(* ------------------------------------------------------------------ *)
(** ** Links of the wrappers (event.py, lines 77-86 and 104-118) *)

Definition dq : string := String (ascii_of_nat 34) EmptyString.
Definition nl : string := String (ascii_of_nat 10) EmptyString.

#[global] Instance SpeakerCategory_eq_dec : EqDecision SpeakerCategory.
Proof. solve_decision. Defined.

Definition Session_slugified_name (s : Session.t) : string :=
  slugify (SessionData.session_name (Session.data s)).

Definition Session_url_relpath (s : Session.t) : string :=
  "sessions/" ++ Session_slugified_name s ++ "/".

Definition Session_link (base_url : string) (s : Session.t) : string :=
  "<a href=" ++ dq ++ base_url ++ Session_url_relpath s ++ dq ++ ">"
  ++ SessionData.session_name (Session.data s) ++ "</a>".

Definition Speaker_slugified_name (s : Speaker.t) : string :=
  slugify (SpeakerData.speaker_display_name (Speaker.data s)).

Definition Speaker_url_relpath (s : Speaker.t) : string :=
  if decide (COMPOSER ∈ Speaker.categories s) then "composers/" ++ Speaker_slugified_name s ++ "/"
  else if decide (PERFORMER ∈ Speaker.categories s) then "performers/" ++ Speaker_slugified_name s ++ "/"
  else "speakers/" ++ Speaker_slugified_name s ++ "/".

Definition Speaker_link (base_url : string) (s : Speaker.t) : string :=
  "<a href=" ++ dq ++ base_url ++ Speaker_url_relpath s ++ dq ++ ">"
  ++ SpeakerData.speaker_display_name (Speaker.data s) ++ "</a>".

(* ------------------------------------------------------------------ *)
(** ** Pages (pages.py, lines 15-111)

    The templates after [dedent]: the common indentation removed, a
    template opened with a backslash starting on its first line. *)

Definition render_page (path title content : string) : string :=
  "+++" ++ nl
  ++ "title = '''" ++ title ++ "'''" ++ nl
  ++ "path = '''" ++ path ++ "'''" ++ nl
  ++ "template = " ++ dq ++ "future.html" ++ dq ++ nl
  ++ "+++" ++ nl
  ++ nl
  ++ "<p class=" ++ dq ++ "todo" ++ dq ++ ">" ++ nl
  ++ "<strong>NOTE:</strong> This page is automatically generated based on data from Cvent." ++ nl
  ++ "But, I'm aware of several issues with the generated pages at the moment:" ++ nl
  ++ "many dates & times are wrong, and some sessions & speakers are missing altogether!" ++ nl
  ++ "</p>" ++ nl
  ++ nl
  ++ content ++ nl.

(** The [sessions] local of [speaker_page] (lines 37-45). *)
Definition speaker_sessions (base_url : string) (speaker : Speaker.t) (database : Database) : string :=
  match SpeakerData.presenter_at (Speaker.data speaker) with
  | [] => "<p>None yet</p>"
  | stubs =>
      fold_left (fun acc stub =>
        match sessions database !! stub with
        | Some session => acc ++ "<li>" ++ Session_link base_url session ++ "</li>"
        | None => acc ++ "<li>(unknown session with identifier " ++ stub ++ ")</li>"
        end) stubs "<ul>"
  end.

Definition speaker_page (path : string) (speaker : Speaker.t) (base_url : string)
    (database : Database) : string :=
  let d := Speaker.data speaker in
  let content :=
    "<h1>" ++ SpeakerData.speaker_display_name d ++ "</h1>" ++ nl
    ++ "<h2>Biography</h2>" ++ nl
    ++ "<p>" ++ SpeakerData.speaker_biography d ++ "</p>" ++ nl
    ++ "<h2>Sessions</h2>" ++ nl
    ++ speaker_sessions base_url speaker database ++ nl in
  render_page path (SpeakerData.speaker_display_name d) content.

(** A Python container as a [match] statement sees it: the sequence
    pattern [[p]] matches a list of length one, never a set (a set is
    not a [collections.abc.Sequence]). *)
Inductive py_container (A : Type) :=
| PyList (xs : list A)
| PySet (xs : list A).
Arguments PyList {A} xs.
Arguments PySet {A} xs.

Definition match_single_seq {A} (v : py_container A) : option A :=
  match v with PyList [x] => Some x | _ => None end.

(** [s.update(l)] on a set held as the list of its elements. *)
Definition set_update `{EqDecision A} (s l : list A) : list A :=
  fold_left (fun acc x => if decide (x ∈ acc) then acc else app acc [x]) l s.

(** The [speaker_label] and [speakers] locals of [session_page]
    (lines 61-80). *)
Definition session_speakers (base_url : string) (session : Session.t) (database : Database)
    : option string * option string :=
  match SessionData.speakers (Session.data session) with
  | [] => (None, None)
  | stubs =>
      let '(speakers_html, speaker_types) :=
        fold_left (fun '(acc, types) stub =>
          match speakers database !! stub with
          | Some speaker =>
              (acc ++ "<li>" ++ Speaker_link base_url speaker ++ "</li>",
               set_update types (default [] (speaker_categories database !! Speaker.stub speaker)))
          | None => (acc ++ "<li>(unknown speaker with identifier " ++ stub ++ ")</li>", types)
          end) stubs ("<ul>", []) in
      let speakers_html := speakers_html ++ "</ul>" in
      let speaker_label :=
        match match_single_seq (PySet speaker_types) with
        | Some PERFORMER => "Performers"
        | Some PRESENTER => "Presenters"
        | _ => "People"
        end in
      (Some speaker_label, Some speakers_html)
  end.

(** What lines 91-97 append to the content of a session page; a [None]
    formats as "None". *)
Definition session_page_speakers (base_url : string) (session : Session.t)
    (database : Database) : string :=
  let '(speaker_label, speakers_html) := session_speakers base_url session database in
  match speaker_label with
  | Some l =>
      if String.eqb l "" then ""
      else "<h2>" ++ l ++ "</h2>" ++ nl ++ default "None" speakers_html ++ nl
  | None => ""
  end.

(** Python orders str values by code point; on the bytes of their UTF-8
    encoding that is the byte order of [String.leb]. *)
Definition str_le (a b : string) : Prop := String.leb a b = true.

#[global] Instance str_le_dec : RelDecision str_le.
Proof. intros a b. unfold str_le. apply _. Defined.

Definition index_page (path title : string) (links : list string) : string :=
  let items := String.concat nl (map (fun link => "<li>" ++ link ++ "</li>")
                                     (merge_sort str_le links)) in
  let content := nl ++ "<h1>" ++ title ++ "</h1>" ++ nl ++ "<ul>" ++ nl
                 ++ items ++ nl ++ "</ul>" ++ nl in
  render_page path title content.

(* ------------------------------------------------------------------ *)
(** ** The [POST /cvent-event] endpoint (__main__.py, lines 35-63)

    The data directory is the file system [fs], listed by [ls_sessions]
    and [ls_speakers] for [Database.load]; [sent] holds the messages
    notified so far.  The result is the response, the file system after
    the request and the messages notified. *)

Inductive response :=
| Resp200                     (** the handler returns [None] *)
| Resp401                     (** wrong [authorization] header *)
| Resp400 (e : py_error)      (** [handle_event] raised [e] *)
| Resp500 (e : py_error)      (** [Database.load] raised [e], uncaught *)
| Resp422.                    (** the body is not a JSON object *)

Section Endpoint.
Context `{FieldCodec}.

Definition cvent_event (auth_token : string) (authorization : option string) (event : json)
    (ls_sessions ls_speakers : option (list (string * json))) (fs : FS) (sent : list json)
    : response * FS * list json :=
  match event with
  | JObj _ =>
      if decide (authorization = Some auth_token) then
        match load ls_sessions ls_speakers with
        | Err e => (Resp500 e, fs, sent)
        | Ok (database, _) =>
            match handle_event event (database, sent) with
            | (Err e, (_, sent')) => (Resp400 e, fs, sent')
            | (Ok changed, (database', sent')) =>
                if changed then (Resp200, run_save database' fs, sent')
                else (Resp200, fs, sent')
            end
        end
      else (Resp401, fs, sent)
  | _ => (Resp422, fs, sent)
  end.

End Endpoint.

(** An item of an HTML list as the pages write it: [<li>...</li>]. *)
Definition li_item (i : string) : Prop := exists x, i = "<li>" ++ x ++ "</li>".

(** The categories kept on each speaker wrapper agree with the
    [speaker_categories] dict of the store (an absent entry reads as no
    category). *)
Definition cats_ok (db : Database) : Prop :=
  forall k s, speakers db !! k = Some s ->
    Speaker.categories s = default [] (speaker_categories db !! k).

(* ------------------------------------------------------------------ *)
(** ** A sample codec

    Used to run the model on concrete inputs: a str is a JSON string, a
    date a JSON number, a datetime a JSON array of its reading and (for
    an aware one) its offset. *)

Definition sample_coerce_datetime (v : json) : option datetime :=
  match v with
  | JArr [JNum w] => Some (mk_datetime w None)
  | JArr [JNum w; JNum o] => Some (mk_datetime w (Some o))
  | _ => None
  end.

Definition sample_encode_datetime (d : datetime) : json :=
  match dt_utcoffset d with
  | None => JArr [JNum (dt_wall d)]
  | Some o => JArr [JNum (dt_wall d); JNum o]
  end.

#[local] Instance sample_codec : FieldCodec := {
  coerce_str := fun v => match v with JStr s => Some s | _ => None end;
  coerce_datetime := sample_coerce_datetime;
  coerce_date := fun v => match v with JNum n => Some n | _ => None end;
  encode_datetime := sample_encode_datetime;
  encode_date := JNum
}.

Definition sample_session (stub : string) (name : string) : SessionData.t :=
  SessionData.mk "An evening recital" (mk_datetime 7200%Z (Some (-25200)%Z))
    name (mk_datetime 3600%Z (Some (-25200)%Z)) stub
    ["Organist"; "Moderator"] ["jane-doe"; "john-roe"] "America/Los_Angeles" 738000%Z.

Definition sample_payload : json :=
  JObj [("sessionDescription", JStr "An evening recital");
        ("sessionEndDateTime", JArr [JNum 7200%Z; JNum (-25200)%Z]);
        ("sessionName", JStr "Recital");
        ("sessionStartDateTime", JArr [JNum 3600%Z; JNum (-25200)%Z]);
        ("sessionStub", JStr "recital");
        ("speakerCategory", JArr [JStr "Organist"; JStr "Moderator"]);
        ("speakers", JArr [JStr "jane-doe"; JStr "john-roe"]);
        ("timezoneName", JStr "America/Los_Angeles");
        ("updatedDate", JNum 738000%Z)].

Definition event_of (event_type : string) (message : json) : json :=
  JObj [("eventType", JStr event_type); ("message", JArr [message])].

Example parse_sample_payload :
  SessionData_call sample_payload = Ok (sample_session "recital" "Recital").
Proof. reflexivity. Qed.

Example handle_session_created :
  fst (handle_event (event_of "SessionCreated" sample_payload) (empty_db, [])) = Ok true.
Proof. reflexivity. Qed.

Example load_sample :
  option_map (fun r => speaker_categories (fst r))
    (match load (Some [("recital.json", encode_session (sample_session "recital" "Recital"))]) None
     with Ok r => Some r | Err _ => None end)
  = Some (<["john-roe" := [PRESENTER]]> (<["jane-doe" := [PERFORMER]]> ∅)).
Proof. vm_compute. reflexivity. Qed.

(* ================================================================== *)
(** * Theorems *)

(** [db'] differs from [db] at most in the session stored under [key]. *)
Definition only_session_changed (db db' : Database) (key : string) : Prop :=
  speakers db' = speakers db /\ speaker_categories db' = speaker_categories db /\
  forall k, k <> key -> sessions db' !! k = sessions db !! k.

Definition only_speaker_changed (db db' : Database) (key : string) : Prop :=
  sessions db' = sessions db /\ speaker_categories db' = speaker_categories db /\
  forall k, k <> key -> speakers db' !! k = speakers db !! k.

(** The role labels the chain of [category_of_label] names. *)
Definition known_labels : list string :=
  ["Organist"; "Performer"; "New Music Composer"; "Speaker"; "Panelist";
   "Presenter"; "Workshop Presenter"; "Moderator"].

(** The external-name mapping as the spec words it: split on "_",
    lower-case the first segment, capitalize each later one (upper-case
    its first letter), concatenate. *)
Definition upcase_first (s : string) : string :=
  match s with
  | EmptyString => EmptyString
  | String c s' => String (ascii_upper c) s'
  end.

Definition spec_external_name (name : string) : string :=
  match split_underscore name with
  | first :: rest => String.append (str_lower first) (str_join (map upcase_first rest))
  | [] => EmptyString
  end.

Definition json_keys (v : json) : list string :=
  match v with JObj kvs => map fst kvs | _ => [] end.

(** The declared fields of the two models: name, type, and whether the
    field is required (no default). *)
Inductive field_type := TStr | TDateTime | TDate | TStrList.

Definition session_fields : list (string * field_type * bool) :=
  [("session_description", TStr, true); ("session_end_date_time", TDateTime, true);
   ("session_name", TStr, true); ("session_start_date_time", TDateTime, true);
   ("session_stub", TStr, true); ("speaker_category", TStrList, false);
   ("speakers", TStrList, false); ("timezone_name", TStr, true);
   ("updated_date", TDate, true)].

Definition speaker_fields : list (string * field_type * bool) :=
  [("presenter_at", TStrList, false); ("speaker_biography", TStr, true);
   ("speaker_display_name", TStr, true); ("speaker_first_name", TStr, true);
   ("speaker_last_name", TStr, true); ("speaker_stub", TStr, true);
   ("speaker_title", TStr, true); ("updated_date", TDate, true)].

Definition has_value {A} (o : option A) : bool :=
  match o with Some _ => true | None => false end.

Definition accepts `{FieldCodec} (t : field_type) (v : json) : bool :=
  match t with
  | TStr => has_value (coerce_str v)
  | TDateTime => has_value (coerce_datetime v)
  | TDate => has_value (coerce_date v)
  | TStrList => has_value (coerce_str_list v)
  end.

(** A payload field passes: present under its alias with a value of its
    type, or absent and not required. *)
Definition field_valid `{FieldCodec} (kvs : list (string * json))
    (f : string * field_type * bool) : bool :=
  let '(name, t, required) := f in
  match dict_get (camel_case name) kvs with
  | Some v => accepts t v
  | None => negb required
  end.

(** No wrapper has its [updated] flag set. *)
Definition all_saved (db : Database) : Prop :=
  (forall k s, sessions db !! k = Some s -> Session.updated s = false) /\
  (forall k s, speakers db !! k = Some s -> Speaker.updated s = false).

(** Deletions only. *)
Definition is_delete (op : store_op) : bool :=
  match op with OpDeleteSession _ | OpDeleteSpeaker _ => true | _ => false end.

(** The (collection, file name) pairs a list of writes touches. *)
Definition write_targets (ws : list (collection * string * json)) : list (collection * string) :=
  map (fun w => (w.1.1, w.1.2)) ws.

(** A record file as [load] reads it: its content is a valid record, and
    its name is the record's stub followed by ".json" (the name [save]
    gives it). *)
Definition session_file_ok `{FieldCodec} (entry : string * json) : Prop :=
  exists d, parse_file_session (snd entry) = Ok d
            /\ fst entry = String.append (SessionData.session_stub d) ".json".

Definition speaker_file_ok `{FieldCodec} (entry : string * json) : Prop :=
  exists d, parse_file_speaker (snd entry) = Ok d
            /\ fst entry = String.append (SpeakerData.speaker_stub d) ".json".

(** A sequence of operations applied in order. *)
Fixpoint run_ops (ops : list store_op) (db : Database) : Database :=
  match ops with
  | [] => db
  | op :: rest => run_ops rest (fst (apply_op op db))
  end.

(** Every event kind the dispatch of [handle_event] names. *)
Definition event_kinds : list string :=
  ["SessionCreated"; "SessionUpdated"; "SessionDeleted"; "SpeakerCreated";
   "SpeakerUpdated"; "SpeakerDeleted"; "InviteeOrGuestAccepted"].

Ltac run_handle :=
  unfold handle_event, bind, lift, ret, raise, on_db;
  repeat match goal with
         | H : getitem _ _ = _ |- _ => rewrite H; clear H
         | H : unpack_first _ = _ |- _ => rewrite H; clear H
         end;
  cbn -[update_session update_speaker delete_session delete_speaker
        parse_session_obj parse_speaker_obj].

Section Properties.
Context `{FieldCodec}.

(** C1 (code_bug).  An InviteeOrGuestAccepted event whose admission item
    is not the Select Circle one leaves the store alone and sends no
    notification, but [handle_event] raises UnboundLocalError: no branch
    of the [InviteeOrGuestAccepted] case assigns [changed], so
    [return changed] fails instead of returning false. *)
Theorem handle_event_invitee_unbound_changed :
  forall (ev m item : json) (rest : list json) (db : Database) (sent : list json),
    getitem ev "eventType" = Ok (JStr "InviteeOrGuestAccepted") ->
    getitem ev "message" = Ok (JArr (m :: rest)) ->
    getitem m "admissionItem" = Ok item ->
    is_str item circle_admission_item = false ->
    handle_event ev (db, sent) = (Err (UnboundLocalError "changed"), (db, sent)).
Proof.
  intros ev m item rest db sent Ht Hm Hi Hc.
  run_handle. rewrite Hi. cbn. rewrite Hc. reflexivity.
Qed.


Lemma datetime_eqb_refl (d : datetime) : datetime_eqb d d = true.
Proof.
  destruct d as [w [o|]]; unfold datetime_eqb; simpl; apply Z.eqb_refl.
Qed.

Lemma str_list_eqb_refl (l : list string) : str_list_eqb l l = true.
Proof.
  induction l as [|x l IH]; simpl; [done|]. rewrite String.eqb_refl. exact IH.
Qed.

Lemma SessionData_eqb_refl (d : SessionData.t) : SessionData.eqb d d = true.
Proof.
  destruct d; unfold SessionData.eqb; simpl.
  rewrite !String.eqb_refl, !datetime_eqb_refl, !str_list_eqb_refl, Z.eqb_refl.
  reflexivity.
Qed.

Lemma SpeakerData_eqb_refl (d : SpeakerData.t) : SpeakerData.eqb d d = true.
Proof.
  destruct d; unfold SpeakerData.eqb; simpl.
  rewrite !String.eqb_refl, !str_list_eqb_refl, Z.eqb_refl.
  reflexivity.
Qed.

Ltac other_keys :=
  repeat split; simpl; try reflexivity;
  intros k' Hne; rewrite lookup_insert_ne; [done|];
  intros Heq; apply Hne; rewrite <- Heq; reflexivity.

Lemma update_session_cases (db : Database) (d : SessionData.t) :
  let key := SessionData.session_stub d in
  let r := update_session d db in
  match sessions db !! key with
  | Some e =>
      if SessionData.eqb (Session.data e) d
      then r = (db, false)
      else sessions (fst r) !! key = Some (Session.mk d true (Session.deleted e))
           /\ snd r = true /\ only_session_changed db (fst r) key
  | None =>
      sessions (fst r) !! key = Some (Session.new d)
      /\ snd r = true /\ only_session_changed db (fst r) key
  end.
Proof.
  intros key r. subst r. unfold update_session. fold key.
  destruct (sessions db !! key) as [e|] eqn:Hk; [destruct (SessionData.eqb _ _) eqn:He|].
  - reflexivity.
  - split; [apply lookup_insert_eq | split; [done | other_keys]].
  - split; [apply lookup_insert_eq | split; [done | other_keys]].
Qed.

Lemma update_session_again (db : Database) (d : SessionData.t) :
  update_session d (fst (update_session d db)) = (fst (update_session d db), false).
Proof.
  unfold update_session.
  destruct (sessions db !! SessionData.session_stub d) as [e|] eqn:Hk;
    [destruct (SessionData.eqb _ _) eqn:He|]; simpl.
  - rewrite Hk, He. reflexivity.
  - rewrite lookup_insert_eq; simpl. rewrite SessionData_eqb_refl. reflexivity.
  - unfold Session.stub; simpl. rewrite lookup_insert_eq; simpl.
    rewrite SessionData_eqb_refl. reflexivity.
Qed.

Lemma update_speaker_cases (db : Database) (d : SpeakerData.t) :
  let key := SpeakerData.speaker_stub d in
  let r := update_speaker d db in
  match speakers db !! key with
  | Some e =>
      if SpeakerData.eqb (Speaker.data e) d
      then r = (db, false)
      else speakers (fst r) !! key
             = Some (Speaker.mk d (Speaker.categories e) true (Speaker.deleted e))
           /\ snd r = true /\ only_speaker_changed db (fst r) key
  | None =>
      speakers (fst r) !! key
        = Some (Speaker.new d (default [] (speaker_categories db !! key)))
      /\ snd r = true /\ only_speaker_changed db (fst r) key
  end.
Proof.
  intros key r. subst r. unfold update_speaker. fold key.
  destruct (speakers db !! key) as [e|] eqn:Hk; [destruct (SpeakerData.eqb _ _) eqn:He|].
  - reflexivity.
  - split; [apply lookup_insert_eq | split; [done | other_keys]].
  - split; [apply lookup_insert_eq | split; [done | other_keys]].
Qed.

Lemma update_speaker_again (db : Database) (d : SpeakerData.t) :
  update_speaker d (fst (update_speaker d db)) = (fst (update_speaker d db), false).
Proof.
  unfold update_speaker.
  destruct (speakers db !! SpeakerData.speaker_stub d) as [e|] eqn:Hk;
    [destruct (SpeakerData.eqb _ _) eqn:He|]; simpl.
  - rewrite Hk, He. reflexivity.
  - rewrite lookup_insert_eq; simpl. rewrite SpeakerData_eqb_refl. reflexivity.
  - unfold Speaker.stub; simpl. rewrite lookup_insert_eq; simpl.
    rewrite SpeakerData_eqb_refl. reflexivity.
Qed.

(** C2.  [update_session] on a store [db] and a record [d] with stub
    [key]: if a wrapper [e] is stored under [key] and its record equals
    [d] (Python [==]), the store is unchanged and the result is false; if
    it differs, the wrapper now holds [d] with [updated = True] (its
    [deleted] flag kept) and the result is true; if none is stored, the
    new wrapper [Session(d)], whose [updated] is True, is stored and the
    result is true.  Nothing else in the store changes.  A second call
    with the same record returns false and leaves the store, hence every
    [updated] flag, as the first call left it.  [update_speaker] obeys
    the same contract. *)
Theorem update_session_contract :
  forall (db : Database) (d : SessionData.t) (sd : SpeakerData.t),
    (let key := SessionData.session_stub d in
     let r := update_session d db in
     match sessions db !! key with
     | Some e =>
         if SessionData.eqb (Session.data e) d
         then r = (db, false)
         else sessions (fst r) !! key = Some (Session.mk d true (Session.deleted e))
              /\ snd r = true /\ only_session_changed db (fst r) key
     | None =>
         sessions (fst r) !! key = Some (Session.new d)
         /\ Session.updated (Session.new d) = true
         /\ snd r = true /\ only_session_changed db (fst r) key
     end
     /\ update_session d (fst r) = (fst r, false))
    /\
    (let key := SpeakerData.speaker_stub sd in
     let r := update_speaker sd db in
     match speakers db !! key with
     | Some e =>
         if SpeakerData.eqb (Speaker.data e) sd
         then r = (db, false)
         else speakers (fst r) !! key
                = Some (Speaker.mk sd (Speaker.categories e) true (Speaker.deleted e))
              /\ snd r = true /\ only_speaker_changed db (fst r) key
     | None =>
         speakers (fst r) !! key
           = Some (Speaker.new sd (default [] (speaker_categories db !! key)))
         /\ Speaker.updated (Speaker.new sd []) = true
         /\ snd r = true /\ only_speaker_changed db (fst r) key
     end
     /\ update_speaker sd (fst r) = (fst r, false)).
Proof.
  intros db d sd. split.
  - split; [|apply update_session_again].
    pose proof (update_session_cases db d) as Hc. simpl in Hc.
    destruct (sessions db !! _); [exact Hc|]. tauto.
  - split; [|apply update_speaker_again].
    pose proof (update_speaker_cases db sd) as Hc. simpl in Hc.
    destruct (speakers db !! _); [exact Hc|]. tauto.
Qed.

(** C3.  [delete_session stub]: when a wrapper [e] is stored under
    [stub], the result is true and the wrapper stays in the dict with
    [deleted = True], the same record and the same [updated] flag, and
    nothing else changes; when none is, the result is false and the
    store is unchanged.  [delete_speaker] is symmetric. *)
Theorem delete_contract :
  forall (db : Database) (stub : string),
    (let r := delete_session stub db in
     match sessions db !! stub with
     | Some e =>
         snd r = true
         /\ sessions (fst r) !! stub
              = Some (Session.mk (Session.data e) (Session.updated e) true)
         /\ only_session_changed db (fst r) stub
     | None => r = (db, false)
     end)
    /\
    (let r := delete_speaker stub db in
     match speakers db !! stub with
     | Some e =>
         snd r = true
         /\ speakers (fst r) !! stub
              = Some (Speaker.mk (Speaker.data e) (Speaker.categories e)
                        (Speaker.updated e) true)
         /\ only_speaker_changed db (fst r) stub
     | None => r = (db, false)
     end).
Proof.
  intros db stub. unfold delete_session, delete_speaker. split.
  - destruct (sessions db !! stub) as [e|]; [|reflexivity].
    split; [done | split; [apply lookup_insert_eq | other_keys]].
  - destruct (speakers db !! stub) as [e|]; [|reflexivity].
    split; [done | split; [apply lookup_insert_eq | other_keys]].
Qed.

Ltac lookup_cases :=
  simpl; rewrite ?lookup_insert; repeat case_decide; subst; simplify_eq;
  eauto.

Lemma apply_op_keeps_session_tombstone (op : store_op) (db : Database) (k : string)
    (s : Session.t) :
  sessions db !! k = Some s -> Session.deleted s = true ->
  exists s', sessions (fst (apply_op op db)) !! k = Some s' /\ Session.deleted s' = true.
Proof.
  intros Hk Hd. destruct op as [d|d|st|st]; simpl.
  - unfold update_session.
    destruct (sessions db !! SessionData.session_stub d) as [e|] eqn:He;
      [destruct (SessionData.eqb _ _)|]; simpl; [eauto| |];
      rewrite lookup_insert; case_decide; subst; simplify_eq; eauto.
    unfold Session.stub in *; simpl in *; congruence.
  - unfold update_speaker. destruct (speakers db !! _); [destruct (SpeakerData.eqb _ _)|];
      simpl; eauto.
  - unfold delete_session.
    destruct (sessions db !! st) as [e|] eqn:He; simpl; [|eauto].
    rewrite lookup_insert; case_decide; subst; simplify_eq; eauto.
  - unfold delete_speaker. destruct (speakers db !! _); simpl; eauto.
Qed.

Lemma apply_op_keeps_speaker_tombstone (op : store_op) (db : Database) (k : string)
    (s : Speaker.t) :
  speakers db !! k = Some s -> Speaker.deleted s = true ->
  exists s', speakers (fst (apply_op op db)) !! k = Some s' /\ Speaker.deleted s' = true.
Proof.
  intros Hk Hd. destruct op as [d|d|st|st]; simpl.
  - unfold update_session. destruct (sessions db !! _); [destruct (SessionData.eqb _ _)|];
      simpl; eauto.
  - unfold update_speaker.
    destruct (speakers db !! SpeakerData.speaker_stub d) as [e|] eqn:He;
      [destruct (SpeakerData.eqb _ _)|]; simpl; [eauto| |];
      rewrite lookup_insert; case_decide; subst; simplify_eq; eauto.
    unfold Speaker.stub in *; simpl in *; congruence.
  - unfold delete_session. destruct (sessions db !! _); simpl; eauto.
  - unfold delete_speaker.
    destruct (speakers db !! st) as [e|] eqn:He; simpl; [|eauto].
    rewrite lookup_insert; case_decide; subst; simplify_eq; eauto.
Qed.

Lemma run_ops_keeps_tombstones (ops : list store_op) :
  forall (db : Database) (k : string),
    (forall s, sessions db !! k = Some s -> Session.deleted s = true ->
       exists s', sessions (run_ops ops db) !! k = Some s' /\ Session.deleted s' = true)
    /\ (forall s, speakers db !! k = Some s -> Speaker.deleted s = true ->
       exists s', speakers (run_ops ops db) !! k = Some s' /\ Speaker.deleted s' = true).
Proof.
  induction ops as [|op ops IH]; intros db k; simpl; split; eauto.
  - intros s Hk Hd.
    destruct (apply_op_keeps_session_tombstone op db k s Hk Hd) as (s' & Hk' & Hd').
    exact (proj1 (IH _ k) s' Hk' Hd').
  - intros s Hk Hd.
    destruct (apply_op_keeps_speaker_tombstone op db k s Hk Hd) as (s' & Hk' & Hd').
    exact (proj2 (IH _ k) s' Hk' Hd').
Qed.

(** C5.  An event whose [eventType] is none of the seven kinds of the
    dispatch, with a non-empty [message] list, makes [handle_event] raise
    [ValueError(f"Unrecognized event type {event_type!r}")], carrying the
    tag, and leaves the store and the sent notifications as they were. *)
Theorem handle_event_unrecognized_kind :
  forall (ev t m : json) (rest : list json) (st : hstate),
    getitem ev "eventType" = Ok t ->
    Forall (fun kind => is_str t kind = false) event_kinds ->
    getitem ev "message" = Ok (JArr (m :: rest)) ->
    handle_event ev st = (Err (ValueError_unrecognized t), st).
Proof.
  intros ev t m rest [db sent] Ht Hk Hm.
  unfold event_kinds in Hk.
  repeat match goal with H : Forall _ (_ :: _) |- _ => inversion_clear H end.
  run_handle.
  repeat match goal with H : is_str t _ = false |- _ => rewrite H; clear H end.
  reflexivity.
Qed.

(** C10 (as amended).  Once a wrapper's [deleted] flag is True, no
    sequence of store operations makes it False again, for sessions and
    for speakers.  [update_session] on a tombstoned stub with a record
    different from the stored one replaces the record, sets
    [updated = True] and keeps [deleted = True], returning True; with an
    equal record it returns False and leaves the whole store as it was
    (so [updated] keeps its value).  [update_speaker] likewise. *)
Theorem tombstone_never_cleared :
  forall (ops : list store_op) (db : Database) (k : string),
    (forall s, sessions db !! k = Some s -> Session.deleted s = true ->
       exists s', sessions (run_ops ops db) !! k = Some s' /\ Session.deleted s' = true)
    /\ (forall s, speakers db !! k = Some s -> Speaker.deleted s = true ->
       exists s', speakers (run_ops ops db) !! k = Some s' /\ Speaker.deleted s' = true)
    /\ (forall (d : SessionData.t) s,
          SessionData.session_stub d = k -> sessions db !! k = Some s ->
          Session.deleted s = true ->
          update_session d db
            = if SessionData.eqb (Session.data s) d then (db, false)
              else (set_sessions db (<[k := Session.mk d true true]> (sessions db)), true))
    /\ (forall (d : SpeakerData.t) s,
          SpeakerData.speaker_stub d = k -> speakers db !! k = Some s ->
          Speaker.deleted s = true ->
          update_speaker d db
            = if SpeakerData.eqb (Speaker.data s) d then (db, false)
              else (set_speakers db (<[k := Speaker.mk d (Speaker.categories s) true true]>
                                      (speakers db)), true)).
Proof.
  intros ops db k.
  destruct (run_ops_keeps_tombstones ops db k) as [Hs Hp].
  split; [exact Hs|]. split; [exact Hp|]. split.
  - intros d s Hd Hk Hdel. subst k. unfold update_session. rewrite Hk, Hdel. reflexivity.
  - intros d s Hd Hk Hdel. subst k. unfold update_speaker. rewrite Hk, Hdel. reflexivity.
Qed.


Lemma category_of_label_other (l : string) :
  ~ In l known_labels -> category_of_label l = None.
Proof.
  intros Hl. unfold category_of_label.
  repeat match goal with
         | |- context [String.eqb l ?b] =>
             destruct (String.eqb_spec l b); [subst; exfalso; apply Hl; simpl; tauto|]
         end.
  reflexivity.
Qed.

Lemma load_session_file_total (acc : load_acc) (entry : string * json) (d : SessionData.t) :
  parse_file_session (snd entry) = Ok d -> exists acc', load_session_file acc entry = Ok acc'.
Proof.
  intros Hp. destruct acc as [db log]. unfold load_session_file. rewrite Hp. simpl.
  destruct (fold_left _ _ _). eauto.
Qed.

(** C8.  The label chain of [load] maps "Organist" and "Performer" to
    PERFORMER, "New Music Composer" to COMPOSER, and "Speaker",
    "Panelist", "Presenter", "Workshop Presenter", "Moderator" to
    PRESENTER, by exact (case-sensitive) string equality; every other
    label gives no category.  For an index-aligned (speaker, label) pair,
    a known label appends its category to the speaker's list, an unknown
    one leaves the index alone and adds an "Unknown speaker category"
    warning; the step for a session file never fails once the file has
    parsed. *)
Theorem role_label_classifier :
  category_of_label "Organist" = Some PERFORMER
  /\ category_of_label "Performer" = Some PERFORMER
  /\ category_of_label "New Music Composer" = Some COMPOSER
  /\ category_of_label "Speaker" = Some PRESENTER
  /\ category_of_label "Panelist" = Some PRESENTER
  /\ category_of_label "Presenter" = Some PRESENTER
  /\ category_of_label "Workshop Presenter" = Some PRESENTER
  /\ category_of_label "Moderator" = Some PRESENTER
  /\ (forall l, ~ In l known_labels -> category_of_label l = None)
  /\ (forall idx log stub l c, category_of_label l = Some c ->
        classify_pair (idx, log) (stub, l)
          = (<[stub := app (default [] (idx !! stub)) [c]]> idx, log))
  /\ (forall idx log stub l, category_of_label l = None ->
        classify_pair (idx, log) (stub, l) = (idx, app log [UnknownSpeakerCategory l]))
  /\ (forall acc entry d, parse_file_session (snd entry) = Ok d ->
        exists acc', load_session_file acc entry = Ok acc').
Proof.
  do 8 (split; [reflexivity|]).
  split; [exact category_of_label_other|].
  split; [intros idx log stub l c Hc; simpl; rewrite Hc; reflexivity|].
  split; [intros idx log stub l Hc; simpl; rewrite Hc; reflexivity|].
  exact load_session_file_total.
Qed.

(** C9.  On every declared field name, [camel_case] is the spec's
    mapping; [.json(by_alias=True)] writes each model under exactly the
    [camel_case] names of its fields, in declaration order, and the
    validation of a payload reads exactly these names: two payloads that
    agree on them give the same result. *)
Theorem external_names_symmetric :
  map camel_case SessionData.field_names = map spec_external_name SessionData.field_names
  /\ map camel_case SpeakerData.field_names = map spec_external_name SpeakerData.field_names
  /\ (forall d, json_keys (encode_session d) = map camel_case SessionData.field_names)
  /\ (forall d, json_keys (encode_speaker d) = map camel_case SpeakerData.field_names)
  /\ (forall kvs1 kvs2,
        (forall f, In f SessionData.field_names ->
           dict_get (camel_case f) kvs1 = dict_get (camel_case f) kvs2) ->
        parse_session_obj kvs1 = parse_session_obj kvs2)
  /\ (forall kvs1 kvs2,
        (forall f, In f SpeakerData.field_names ->
           dict_get (camel_case f) kvs1 = dict_get (camel_case f) kvs2) ->
        parse_speaker_obj kvs1 = parse_speaker_obj kvs2).
Proof.
  split; [reflexivity|]. split; [reflexivity|].
  split; [reflexivity|]. split; [reflexivity|].
  split; intros kvs1 kvs2 Hagree;
    unfold parse_session_obj, parse_speaker_obj, field_req, field_opt;
    repeat match goal with
           | |- context [dict_get (camel_case ?f) kvs1] =>
               rewrite (Hagree f) by (simpl; tauto)
           end;
    reflexivity.
Qed.

(** Validation raises nothing but ValidationError. *)
Definition only_validation {A} (r : result A) : Prop :=
  forall e, r = Err e -> e = ValidationError.

Lemma only_validation_rbind {A B} (m : result A) (k : A -> result B) :
  only_validation m -> (forall a, only_validation (k a)) -> only_validation (rbind m k).
Proof.
  intros Hm Hk e. destruct m as [a|e']; simpl; [exact (Hk a e)|].
  intros Heq. injection Heq as <-. exact (Hm e' eq_refl).
Qed.

Lemma only_validation_field_req {A} kvs name (c : json -> option A) :
  only_validation (field_req kvs name c).
Proof. intros e. unfold field_req. repeat case_match; congruence. Qed.

Lemma only_validation_field_opt {A} kvs name (c : json -> option A) dflt :
  only_validation (field_opt kvs name c dflt).
Proof. intros e. unfold field_opt. repeat case_match; congruence. Qed.

Ltac only_validation_chain :=
  repeat (apply only_validation_rbind;
          [apply only_validation_field_req || apply only_validation_field_opt | intros ?]);
  intros ? ?; discriminate.

Lemma parse_session_obj_errors kvs : only_validation (parse_session_obj kvs).
Proof. unfold parse_session_obj. only_validation_chain. Qed.

Lemma parse_speaker_obj_errors kvs : only_validation (parse_speaker_obj kvs).
Proof. unfold parse_speaker_obj. only_validation_chain. Qed.

Lemma field_req_present {A} kvs name (c : json -> option A) a :
  field_req kvs name c = Ok a ->
  exists v, dict_get (camel_case name) kvs = Some v /\ c v = Some a.
Proof. unfold field_req. repeat case_match; intros; simplify_eq; eauto. Qed.

Lemma field_opt_present {A} kvs name (c : json -> option A) dflt a :
  field_opt kvs name c dflt = Ok a ->
  dict_get (camel_case name) kvs = None \/
  exists v, dict_get (camel_case name) kvs = Some v /\ c v = Some a.
Proof. unfold field_opt. repeat case_match; intros; simplify_eq; eauto. Qed.

Ltac ok_fields Hp :=
  repeat match type of Hp with
         | rbind ?m _ = Ok _ =>
             let E := fresh "E" in
             destruct m eqn:E; cbn [rbind] in Hp; [|discriminate Hp]
         end;
  repeat match goal with
         | E : field_req _ _ _ = Ok _ |- _ =>
             apply field_req_present in E as (? & ? & ?)
         | E : field_opt _ _ _ _ = Ok _ |- _ =>
             apply field_opt_present in E as [?|(? & ? & ?)]
         end;
  repeat constructor;
  unfold field_valid; cbn -[camel_case dict_get coerce_str_list];
  repeat match goal with
         | H : dict_get (camel_case ?n) ?k = _ |- context [dict_get (camel_case ?n) ?k] =>
             rewrite H
         end;
  repeat match goal with
         | H : ?c ?v = Some _ |- context [?c ?v] => rewrite H
         end;
  reflexivity.

Lemma parse_session_obj_ok kvs d :
  parse_session_obj kvs = Ok d -> Forall (fun f => field_valid kvs f = true) session_fields.
Proof. unfold parse_session_obj. intros Hp. ok_fields Hp. Qed.

Lemma parse_speaker_obj_ok kvs d :
  parse_speaker_obj kvs = Ok d -> Forall (fun f => field_valid kvs f = true) speaker_fields.
Proof. unfold parse_speaker_obj. intros Hp. ok_fields Hp. Qed.

Lemma invalid_field_fails {A} (fields : list (string * field_type * bool)) kvs (r : result A) :
  only_validation r ->
  (forall d, r = Ok d -> Forall (fun f => field_valid kvs f = true) fields) ->
  Exists (fun f => field_valid kvs f = false) fields ->
  r = Err ValidationError.
Proof.
  intros Hv Hok Hex. destruct r as [d|e].
  - pose proof (Hok d eq_refl) as Hall. exfalso.
    apply Exists_exists in Hex as (f & Hin & Hf).
    rewrite Forall_forall in Hall. rewrite Hall in Hf by done. discriminate.
  - rewrite (Hv e eq_refl). reflexivity.
Qed.

Lemma parse_session_obj_invalid (kvs : list (string * json)) :
  Exists (fun f => field_valid kvs f = false) session_fields ->
  parse_session_obj kvs = Err ValidationError.
Proof.
  apply invalid_field_fails; [apply parse_session_obj_errors | apply parse_session_obj_ok].
Qed.

Lemma parse_speaker_obj_invalid (kvs : list (string * json)) :
  Exists (fun f => field_valid kvs f = false) speaker_fields ->
  parse_speaker_obj kvs = Err ValidationError.
Proof.
  apply invalid_field_fails; [apply parse_speaker_obj_errors | apply parse_speaker_obj_ok].
Qed.


(** C4.  A SessionCreated or SessionUpdated event whose first message
    is an object with a field of [SessionData] missing (a required one)
    or not coercible to its type, or a SpeakerCreated or SpeakerUpdated
    event whose first message is such an object for [SpeakerData], makes
    [handle_event] raise ValidationError, with the store and the sent
    notifications exactly as they were: the model is built before the
    store is touched. *)
Theorem handle_event_invalid_payload :
  forall (ev : json) (kind : string) (kvs : list (string * json)) (rest : list json)
         (st : hstate),
    getitem ev "eventType" = Ok (JStr kind) ->
    getitem ev "message" = Ok (JArr (JObj kvs :: rest)) ->
    ((kind = "SessionCreated" \/ kind = "SessionUpdated")
       /\ Exists (fun f => field_valid kvs f = false) session_fields
     \/ (kind = "SpeakerCreated" \/ kind = "SpeakerUpdated")
       /\ Exists (fun f => field_valid kvs f = false) speaker_fields) ->
    handle_event ev st = (Err ValidationError, st).
Proof.
  intros ev kind kvs rest [db sent] Ht Hm Hcase.
  destruct Hcase as [[[-> | ->] Hex] | [[-> | ->] Hex]]; run_handle;
    rewrite ?parse_session_obj_invalid, ?parse_speaker_obj_invalid by exact Hex;
    reflexivity.
Qed.

(* ------------------------------------------------------------------ *)
(** ** Invariants of the stores the program builds *)

Lemma fold_result_inv {A B} (P : A -> Prop) (f : A -> B -> result A) :
  (forall a b a', P a -> f a b = Ok a' -> P a') ->
  forall l a a', P a -> fold_result f l a = Ok a' -> P a'.
Proof.
  intros Hf l. induction l as [|b l IH]; intros a a' Ha Hl; simpl in Hl.
  - congruence.
  - destruct (f a b) as [a1|e] eqn:E; simpl in Hl; [|discriminate].
    eapply IH; [eapply Hf; eauto | exact Hl].
Qed.

Lemma load_session_file_shape (acc acc' : load_acc) (entry : string * json) :
  load_session_file acc entry = Ok acc' ->
  exists d idx, parse_file_session (snd entry) = Ok d /\
    fst acc' = mk_db (<[SessionData.session_stub d := Session.mk d false false]>
                        (sessions (fst acc)))
                     (speakers (fst acc)) idx.
Proof.
  destruct acc as [db log]. unfold load_session_file.
  destruct (parse_file_session (snd entry)) as [d|e]; simpl; [|discriminate].
  destruct (fold_left _ _ _) as [idx log']. intros [= <-]. eauto.
Qed.

Lemma load_speaker_file_shape (acc acc' : load_acc) (entry : string * json) :
  load_speaker_file acc entry = Ok acc' ->
  exists d cs, parse_file_speaker (snd entry) = Ok d /\
    fst acc' = set_speakers (fst acc)
                 (<[SpeakerData.speaker_stub d := Speaker.mk d cs false false]>
                    (speakers (fst acc))).
Proof.
  destruct acc as [db log]. unfold load_speaker_file.
  destruct (parse_file_speaker (snd entry)) as [d|e]; simpl; [|discriminate].
  intros [= <-]. eauto.
Qed.

Ltac insert_cases :=
  intros ? ?; rewrite lookup_insert; case_decide; [intros [= <-]; eauto | eauto].

Lemma load_invariants (ls1 ls2 : option (list (string * json))) db log :
  load ls1 ls2 = Ok (db, log) -> keys_ok db /\ all_saved db.
Proof.
  set (P := fun acc : load_acc => keys_ok (fst acc) /\ all_saved (fst acc)).
  assert (HP0 : forall log0, P (empty_db, log0)).
  { intros log0. unfold P, keys_ok, all_saved. simpl.
    split; split; intros ? ?; rewrite lookup_empty; discriminate. }
  assert (Hses : forall a b a', P a -> load_session_file a b = Ok a' -> P a').
  { intros a b a' [[Hk1 Hk2] [Hs1 Hs2]] Hl.
    apply load_session_file_shape in Hl as (d & idx & _ & Heq).
    unfold P, keys_ok, all_saved; rewrite Heq; simpl. repeat split; eauto; insert_cases. }
  assert (Hspk : forall a b a', P a -> load_speaker_file a b = Ok a' -> P a').
  { intros a b a' [[Hk1 Hk2] [Hs1 Hs2]] Hl.
    apply load_speaker_file_shape in Hl as (d & cs & _ & Heq).
    unfold P, keys_ok, all_saved; rewrite Heq; simpl. repeat split; eauto; insert_cases. }
  unfold load. intros Hl.
  destruct (match ls1 with Some l => _ | None => _ end) as [acc|e] eqn:E1;
    simpl in Hl; [|discriminate].
  assert (HA : P acc).
  { destruct ls1 as [l|]; [|injection E1 as <-; apply HP0].
    eapply fold_result_inv; [exact Hses | apply HP0 | exact E1]. }
  change (P (db, log)).
  destruct ls2 as [l|].
  - eapply fold_result_inv; [exact Hspk | exact HA | exact Hl].
  - injection Hl as <-. destruct acc; exact HA.
Qed.

Lemma apply_op_keys_ok (op : store_op) (db : Database) :
  keys_ok db -> keys_ok (fst (apply_op op db)).
Proof.
  intros [Hk1 Hk2].
  destruct op as [d|d|st|st]; simpl;
    [unfold update_session | unfold update_speaker | unfold delete_session
    | unfold delete_speaker];
    repeat case_match; unfold set_sessions, set_speakers;
    split; cbn; try assumption; intros k s; rewrite ?lookup_insert;
    (case_decide; [intros [= <-] | eauto]); subst;
    unfold Session.stub, Speaker.stub in *; simpl in *; eauto.
Qed.

Lemma reachable_keys_ok (db : Database) : reachable db -> keys_ok db.
Proof.
  induction 1.
  - eapply load_invariants; eauto.
  - exact (apply_op_keys_ok (OpUpdateSession d) db IHreachable).
  - exact (apply_op_keys_ok (OpUpdateSpeaker d) db IHreachable).
  - exact (apply_op_keys_ok (OpDeleteSession s) db IHreachable).
  - exact (apply_op_keys_ok (OpDeleteSpeaker s) db IHreachable).
Qed.

Lemma delete_keeps_all_saved (op : store_op) (db : Database) :
  is_delete op = true -> all_saved db -> all_saved (fst (apply_op op db)).
Proof.
  intros Hop [Hs1 Hs2]. destruct op as [d|d|st|st]; try discriminate; simpl.
  - unfold delete_session. repeat case_match; unfold set_sessions; cbn; split; eauto.
    intros k s; cbn; rewrite lookup_insert; case_decide; [intros [= <-]; simpl; eauto|eauto].
  - unfold delete_speaker. repeat case_match; unfold set_speakers; cbn; split; eauto.
    intros k s; cbn; rewrite lookup_insert; case_decide; [intros [= <-]; simpl; eauto|eauto].
Qed.

Lemma deletes_keep_all_saved (ops : list store_op) :
  forall db, Forall (fun op => is_delete op = true) ops -> all_saved db ->
  all_saved (run_ops ops db).
Proof.
  induction ops as [|op ops IH]; intros db Hops Hs; simpl; [exact Hs|].
  inversion Hops; subst. apply IH; [done|]. by apply delete_keeps_all_saved.
Qed.

(* ------------------------------------------------------------------ *)
(** ** What [save] writes *)

Lemma fmap_list_map {A B} (f : A -> B) (l : list A) : f <$> l = map f l.
Proof. induction l as [|x l IH]; simpl; [reflexivity|]. rewrite <- IH. reflexivity. Qed.

Lemma string_length_append (a b : string) :
  String.length (String.append a b) = String.length a + String.length b.
Proof. induction a as [|c a IH]; simpl; [reflexivity|]. rewrite IH. reflexivity. Qed.

Lemma string_append_inj_l (a b x : string) :
  String.append a x = String.append b x -> a = b.
Proof.
  revert b. induction a as [|c a IH]; intros [|c' b] Heq; simpl in Heq.
  - reflexivity.
  - apply (f_equal String.length) in Heq. simpl in Heq.
    rewrite !string_length_append in Heq. simpl in Heq. lia.
  - apply (f_equal String.length) in Heq. simpl in Heq.
    rewrite !string_length_append in Heq. simpl in Heq. lia.
  - injection Heq as -> Heq. f_equal. apply IH. exact Heq.
Qed.

Lemma session_filename_inj (s s' : Session.t) :
  Session.filename s = Session.filename s' -> Session.stub s = Session.stub s'.
Proof. apply string_append_inj_l. Qed.

Lemma speaker_filename_inj (s s' : Speaker.t) :
  Speaker.filename s = Speaker.filename s' -> Speaker.stub s = Speaker.stub s'.
Proof. apply string_append_inj_l. Qed.

Lemma in_values {V} (m : gmap string V) (v : V) :
  In v (map snd (map_to_list m)) <-> exists k, m !! k = Some v.
Proof.
  rewrite in_map_iff. split.
  - intros [[k v'] [<- Hin]]. exists k.
    apply elem_of_map_to_list, list_elem_of_In. exact Hin.
  - intros [k Hk]. exists (k, v). split; [reflexivity|].
    apply list_elem_of_In, elem_of_map_to_list. exact Hk.
Qed.

Lemma save_sessions_loop_In (l : list Session.t) w :
  In w (save_sessions_loop l) <->
  exists s, In s l /\ Session.updated s = true /\
    w = (Sessions, Session.filename s, encode_session (Session.data s)).
Proof.
  induction l as [|s l IH]; simpl.
  - split; [done|]. intros (s & [] & _).
  - destruct (Session.updated s) eqn:Hu; simpl; rewrite IH; split.
    + intros [<-|(s' & Hin & Hu' & ->)]; eauto 10.
    + intros (s' & [<-|Hin] & Hu' & ->); eauto 10.
    + intros (s' & Hin & Hu' & ->); eauto 10.
    + intros (s' & [<-|Hin] & Hu' & ->); [congruence|eauto 10].
Qed.

Lemma save_speakers_loop_In (l : list Speaker.t) w :
  In w (save_speakers_loop l) <->
  exists s, In s l /\ Speaker.updated s = true /\
    w = (Speakers, Speaker.filename s, encode_speaker (Speaker.data s)).
Proof.
  induction l as [|s l IH]; simpl.
  - split; [done|]. intros (s & [] & _).
  - destruct (Speaker.updated s) eqn:Hu; simpl; rewrite IH; split.
    + intros [<-|(s' & Hin & Hu' & ->)]; eauto 10.
    + intros (s' & [<-|Hin] & Hu' & ->); eauto 10.
    + intros (s' & Hin & Hu' & ->); eauto 10.
    + intros (s' & [<-|Hin] & Hu' & ->); [congruence|eauto 10].
Qed.

Lemma save_In_sessions (db : Database) name content :
  In (Sessions, name, content) (save db) <->
  exists k s, sessions db !! k = Some s /\ Session.updated s = true /\
    name = Session.filename s /\ content = encode_session (Session.data s).
Proof.
  unfold save. rewrite in_app_iff, save_sessions_loop_In. split.
  - intros [(s & Hin & Hu & Heq)|Hin].
    + apply in_values in Hin as [k Hk]. injection Heq as -> ->. eauto 10.
    + apply save_speakers_loop_In in Hin as (s & _ & _ & Heq). discriminate.
  - intros (k & s & Hk & Hu & -> & ->). left. exists s.
    split; [apply in_values; eauto | auto].
Qed.

Lemma save_In_speakers (db : Database) name content :
  In (Speakers, name, content) (save db) <->
  exists k s, speakers db !! k = Some s /\ Speaker.updated s = true /\
    name = Speaker.filename s /\ content = encode_speaker (Speaker.data s).
Proof.
  unfold save. rewrite in_app_iff, save_speakers_loop_In. split.
  - intros [Hin|(s & Hin & Hu & Heq)].
    + apply save_sessions_loop_In in Hin as (s & _ & _ & Heq). discriminate.
    + apply in_values in Hin as [k Hk]. injection Heq as -> ->. eauto 10.
  - intros (k & s & Hk & Hu & -> & ->). right. exists s.
    split; [apply in_values; eauto | auto].
Qed.

Lemma save_sessions_loop_targets (l : list Session.t) :
  NoDup (map Session.stub l) -> NoDup (write_targets (save_sessions_loop l)).
Proof.
  unfold write_targets.
  induction l as [|s l IH]; simpl; intros Hnd; [constructor|].
  apply NoDup_cons in Hnd as [Hnin Hnd]. rewrite list_elem_of_In in Hnin.
  destruct (Session.updated s); simpl; [|auto].
  constructor; [|auto]. rewrite list_elem_of_In.
  intros Hin. apply Hnin.
  apply in_map_iff in Hin as (w & Heq & Hw).
  apply save_sessions_loop_In in Hw as (s' & Hin' & _ & ->).
  simpl in Heq. injection Heq as Hf. apply session_filename_inj in Hf.
  apply in_map_iff. exists s'. split; [exact Hf | exact Hin'].
Qed.

Lemma save_speakers_loop_targets (l : list Speaker.t) :
  NoDup (map Speaker.stub l) -> NoDup (write_targets (save_speakers_loop l)).
Proof.
  unfold write_targets.
  induction l as [|s l IH]; simpl; intros Hnd; [constructor|].
  apply NoDup_cons in Hnd as [Hnin Hnd]. rewrite list_elem_of_In in Hnin.
  destruct (Speaker.updated s); simpl; [|auto].
  constructor; [|auto]. rewrite list_elem_of_In.
  intros Hin. apply Hnin.
  apply in_map_iff in Hin as (w & Heq & Hw).
  apply save_speakers_loop_In in Hw as (s' & Hin' & _ & ->).
  simpl in Heq. injection Heq as Hf. apply speaker_filename_inj in Hf.
  apply in_map_iff. exists s'. split; [exact Hf | exact Hin'].
Qed.

Lemma values_stubs_NoDup {V} (stub : V -> string) (m : gmap string V) :
  (forall k v, m !! k = Some v -> stub v = k) ->
  NoDup (map stub (map snd (map_to_list m))).
Proof.
  intros Hk. rewrite map_map.
  rewrite (map_ext_in _ fst); [rewrite <- fmap_list_map; apply NoDup_fst_map_to_list|].
  intros [k v] Hin. simpl. apply Hk.
  apply elem_of_map_to_list, list_elem_of_In. exact Hin.
Qed.

Lemma save_targets_NoDup (db : Database) :
  keys_ok db -> NoDup (write_targets (save db)).
Proof.
  intros [Hk1 Hk2]. unfold save, write_targets. rewrite map_app.
  apply NoDup_app. split; [|split].
  - apply save_sessions_loop_targets, values_stubs_NoDup, Hk1.
  - intros x Hx1 Hx2. apply list_elem_of_In in Hx1, Hx2.
    apply in_map_iff in Hx1 as (w1 & <- & Hw1), Hx2 as (w2 & Heq & Hw2).
    apply save_sessions_loop_In in Hw1 as (s1 & _ & _ & ->).
    apply save_speakers_loop_In in Hw2 as (s2 & _ & _ & ->).
    discriminate.
  - apply save_speakers_loop_targets, values_stubs_NoDup, Hk2.
Qed.

Lemma write_file_other (fs : FS) (w : collection * string * json) c name :
  (w.1.1, w.1.2) <> (c, name) -> fs_file (write_file fs w) c name = fs_file fs c name.
Proof.
  destruct w as [[c' n] v]; simpl; intros Hne.
  destruct c', c; simpl; try reflexivity;
    [destruct (fs_sessions fs) | destruct (fs_speakers fs)]; simpl;
    rewrite lookup_insert_ne by congruence; rewrite ?lookup_empty; reflexivity.
Qed.

Lemma fold_write_other (ws : list (collection * string * json)) :
  forall (fs : FS) c name, ~ In (c, name) (write_targets ws) ->
  fs_file (fold_left write_file ws fs) c name = fs_file fs c name.
Proof.
  unfold write_targets.
  induction ws as [|w ws IH]; intros fs c name Hn; simpl in *; [reflexivity|].
  rewrite IH by tauto. apply write_file_other. tauto.
Qed.

Lemma fold_write_In (ws : list (collection * string * json)) :
  forall (fs : FS) c name v,
  NoDup (write_targets ws) -> In (c, name, v) ws ->
  fs_file (fold_left write_file ws fs) c name = Some v.
Proof.
  induction ws as [|w ws IH]; intros fs c name v Hnd Hin; simpl in *; [done|].
  unfold write_targets in Hnd; simpl in Hnd. apply NoDup_cons in Hnd as [Hn Hnd].
  rewrite list_elem_of_In in Hn.
  destruct Hin as [->|Hin].
  - simpl in Hn. rewrite fold_write_other by exact Hn.
    destruct c; simpl; [destruct (fs_sessions fs) | destruct (fs_speakers fs)]; simpl;
      apply lookup_insert_eq.
  - apply IH; assumption.
Qed.

Lemma fold_write_origin (ws : list (collection * string * json)) :
  forall (fs : FS) c name v,
  fs_file (fold_left write_file ws fs) c name = Some v ->
  In (c, name, v) ws \/ fs_file fs c name = Some v.
Proof.
  induction ws as [|w ws IH]; intros fs c name v Hf; simpl in *; [auto|].
  destruct (IH _ _ _ _ Hf) as [Hin|Hf']; [auto|].
  destruct (decide ((w.1.1, w.1.2) = (c, name))) as [Heq|Hne].
  - left; left. destruct w as [[c' n] v']; simpl in Heq. injection Heq as -> ->.
    destruct c; simpl in Hf'; [destruct (fs_sessions fs) | destruct (fs_speakers fs)];
      simpl in Hf'; rewrite lookup_insert_eq in Hf'; congruence.
  - right. rewrite <- (write_file_other fs w c name Hne). exact Hf'.
Qed.

Lemma mkdirs_file (fs : FS) c name : fs_file (mkdirs fs) c name = fs_file fs c name.
Proof. destruct fs as [[m1|] [m2|]], c; simpl; rewrite ?lookup_empty; reflexivity. Qed.

Lemma run_save_dirs (db : Database) (fs : FS) :
  exists m1 m2, run_save db fs = mk_fs (Some m1) (Some m2).
Proof.
  unfold run_save, mkdirs. generalize (save db) as ws.
  generalize (default ∅ (fs_sessions fs)) as m1, (default ∅ (fs_speakers fs)) as m2.
  intros m1 m2 ws. revert m1 m2.
  induction ws as [|[[c n] v] ws IH]; intros m1 m2; simpl; [eauto|].
  destruct c; simpl; apply IH.
Qed.

Lemma save_skips_session (db : Database) (fs : FS) k s :
  keys_ok db -> sessions db !! k = Some s -> Session.updated s = false ->
  fs_file (run_save db fs) Sessions (Session.filename s) = fs_file fs Sessions (Session.filename s).
Proof.
  intros Hk Hs Hu. unfold run_save. rewrite fold_write_other; [apply mkdirs_file|].
  intros Hin. unfold write_targets in Hin. apply in_map_iff in Hin as ([[c n] v] & Heq & Hw).
  simpl in Heq. injection Heq as -> ->.
  apply save_In_sessions in Hw as (k' & s' & Hs' & Hu' & Hf & _).
  apply session_filename_inj in Hf.
  rewrite (proj1 Hk k s Hs), (proj1 Hk k' s' Hs') in Hf. subst k'. congruence.
Qed.

Lemma save_skips_speaker (db : Database) (fs : FS) k s :
  keys_ok db -> speakers db !! k = Some s -> Speaker.updated s = false ->
  fs_file (run_save db fs) Speakers (Speaker.filename s) = fs_file fs Speakers (Speaker.filename s).
Proof.
  intros Hk Hs Hu. unfold run_save. rewrite fold_write_other; [apply mkdirs_file|].
  intros Hin. unfold write_targets in Hin. apply in_map_iff in Hin as ([[c n] v] & Heq & Hw).
  simpl in Heq. injection Heq as -> ->.
  apply save_In_speakers in Hw as (k' & s' & Hs' & Hu' & Hf & _).
  apply speaker_filename_inj in Hf.
  rewrite (proj2 Hk k s Hs), (proj2 Hk k' s' Hs') in Hf. subst k'. congruence.
Qed.

Lemma save_sessions_loop_nil (l : list Session.t) :
  (forall s, In s l -> Session.updated s = false) -> save_sessions_loop l = [].
Proof.
  induction l as [|s l IH]; intros Hl; simpl; [reflexivity|].
  rewrite (Hl s (or_introl eq_refl)). apply IH. intros s' Hin. apply Hl. right. exact Hin.
Qed.

Lemma save_speakers_loop_nil (l : list Speaker.t) :
  (forall s, In s l -> Speaker.updated s = false) -> save_speakers_loop l = [].
Proof.
  induction l as [|s l IH]; intros Hl; simpl; [reflexivity|].
  rewrite (Hl s (or_introl eq_refl)). apply IH. intros s' Hin. apply Hl. right. exact Hin.
Qed.

Lemma save_all_saved (db : Database) : all_saved db -> save db = [].
Proof.
  intros [H1 H2]. unfold save.
  rewrite save_sessions_loop_nil by (intros s Hin; apply in_values in Hin as [k Hk]; eauto).
  rewrite save_speakers_loop_nil by (intros s Hin; apply in_values in Hin as [k Hk]; eauto).
  reflexivity.
Qed.

Lemma split_slash_no_slash (n : string) :
  forallb name_char_ok (list_ascii_of_string n) = true -> split_slash n = [n].
Proof.
  induction n as [|c n IH]; simpl; [reflexivity|].
  intros Hc. apply andb_prop in Hc as [Hc Hn]. unfold name_char_ok in Hc.
  destruct (Ascii.eqb c "/"%char); [discriminate|]. rewrite (IH Hn). reflexivity.
Qed.

(** A plain file name is written at [data_dir/<collection>/<name>]. *)
Lemma plain_save_path (c : collection) (n : string) :
  plain_name n = true -> save_path c n = Some [collection_dir c; n].
Proof.
  unfold plain_name. intros Hp. apply andb_prop in Hp as [Hp _].
  apply andb_prop in Hp as [Hp _]. apply andb_prop in Hp as [Hp Hdot].
  apply andb_prop in Hp as [Hchars Hempty].
  unfold save_path, join_path, path_parts.
  rewrite (split_slash_no_slash n Hchars). simpl.
  apply negb_true_iff in Hempty. apply negb_true_iff in Hdot.
  rewrite Hempty, Hdot. simpl.
  destruct n as [|a n']; [discriminate|].
  simpl in Hchars. apply andb_prop in Hchars as [Ha _]. unfold name_char_ok in Ha.
  destruct (Ascii.eqb a "/"%char); [discriminate|reflexivity].
Qed.

Lemma stubs_plain_sessions (db : Database) k s :
  stubs_plain db = true -> sessions db !! k = Some s -> plain_name (Session.filename s) = true.
Proof.
  unfold stubs_plain. intros Hp Hk. apply andb_prop in Hp as [Hp _].
  rewrite forallb_forall in Hp. apply (Hp (k, s)).
  apply list_elem_of_In, elem_of_map_to_list. exact Hk.
Qed.

Lemma stubs_plain_speakers (db : Database) k s :
  stubs_plain db = true -> speakers db !! k = Some s -> plain_name (Speaker.filename s) = true.
Proof.
  unfold stubs_plain. intros Hp Hk. apply andb_prop in Hp as [_ Hp].
  rewrite forallb_forall in Hp. apply (Hp (k, s)).
  apply list_elem_of_In, elem_of_map_to_list. exact Hk.
Qed.

(** With plain file names, every write of [save] goes to the entry of
    its collection directory that the flat map names. *)
Lemma save_writes_plain (db : Database) c n content :
  stubs_plain db = true -> In (c, n, content) (save db) ->
  plain_name n = true /\ save_path c n = Some [collection_dir c; n].
Proof.
  intros Hp Hin.
  assert (Hn : plain_name n = true).
  { destruct c.
    - apply save_In_sessions in Hin as (k & s & Hk & _ & -> & _).
      exact (stubs_plain_sessions db k s Hp Hk).
    - apply save_In_speakers in Hin as (k & s & Hk & _ & -> & _).
      exact (stubs_plain_speakers db k s Hp Hk). }
  split; [exact Hn|]. apply plain_save_path, Hn.
Qed.

(** C6 (corrected).  For every store the program builds whose wrappers'
    file names are plain ([stubs_plain]), [save] writes to
    sessions/ exactly the files "<stub>.json" of the session wrappers
    whose [updated] flag is set, each holding [encode_session] of the
    record (the external names), and likewise for speakers/; no two
    writes go to the same file; the file of a wrapper whose [updated]
    flag is false, deleted or not, is left as it was; every write goes
    to [data_dir/<collection>/<stub>.json] itself.  On a store built by
    [load] and changed only by deletions, [save] writes nothing. *)
Theorem save_writes_updated_only :
  (forall db : Database, reachable db -> stubs_plain db = true ->
    (forall name content, In (Sessions, name, content) (save db) <->
       exists k s, sessions db !! k = Some s /\ Session.updated s = true /\
         name = String.append (Session.stub s) ".json" /\
         content = encode_session (Session.data s)) /\
    (forall name content, In (Speakers, name, content) (save db) <->
       exists k s, speakers db !! k = Some s /\ Speaker.updated s = true /\
         name = String.append (Speaker.stub s) ".json" /\
         content = encode_speaker (Speaker.data s)) /\
    NoDup (write_targets (save db)) /\
    (forall fs k s, sessions db !! k = Some s -> Session.updated s = false ->
       fs_file (run_save db fs) Sessions (Session.filename s)
       = fs_file fs Sessions (Session.filename s)) /\
    (forall fs k s, speakers db !! k = Some s -> Speaker.updated s = false ->
       fs_file (run_save db fs) Speakers (Speaker.filename s)
       = fs_file fs Speakers (Speaker.filename s)) /\
    (forall c name content, In (c, name, content) (save db) ->
       plain_name name = true /\ save_path c name = Some [collection_dir c; name]))
  /\ (forall ls1 ls2 db log ops, load ls1 ls2 = Ok (db, log) ->
        Forall (fun op => is_delete op = true) ops -> save (run_ops ops db) = []).
Proof.
  split.
  - intros db Hr Hp. pose proof (reachable_keys_ok db Hr) as Hk.
    split; [apply save_In_sessions|]. split; [apply save_In_speakers|].
    split; [apply save_targets_NoDup, Hk|].
    split; [intros fs k s; apply save_skips_session; exact Hk|].
    split; [intros fs k s; apply save_skips_speaker; exact Hk|].
    intros c name content. apply save_writes_plain, Hp.
  - intros ls1 ls2 db log ops Hl Hops. apply save_all_saved, deletes_keep_all_saved;
      [exact Hops|]. eapply load_invariants; exact Hl.
Qed.

(* ------------------------------------------------------------------ *)
(** ** Reading back what [save] wrote *)

Lemma coerce_str_list_encode (Hstr : forall s, coerce_str (JStr s) = Some s)
    (l : list string) :
  coerce_str_list (json_str_list l) = Some l.
Proof.
  unfold coerce_str_list, json_str_list.
  induction l as [|x l IH]; simpl; [reflexivity|]. rewrite Hstr, IH. reflexivity.
Qed.

Lemma parse_encode_session
    (Hstr : forall s, coerce_str (JStr s) = Some s)
    (Hdt : forall x, coerce_datetime (encode_datetime x) = Some x)
    (Hd : forall x, coerce_date (encode_date x) = Some x) (d : SessionData.t) :
  parse_file_session (encode_session d) = Ok d.
Proof.
  destruct d. unfold parse_file_session, encode_session, parse_session_obj, field_req, field_opt.
  cbv -[coerce_str coerce_datetime coerce_date encode_datetime encode_date
        coerce_str_list json_str_list].
  rewrite ?Hstr, ?Hdt, ?Hd, ?(coerce_str_list_encode Hstr). reflexivity.
Qed.

Lemma parse_encode_speaker
    (Hstr : forall s, coerce_str (JStr s) = Some s)
    (Hd : forall x, coerce_date (encode_date x) = Some x) (d : SpeakerData.t) :
  parse_file_speaker (encode_speaker d) = Ok d.
Proof.
  destruct d. unfold parse_file_speaker, encode_speaker, parse_speaker_obj, field_req, field_opt.
  cbv -[coerce_str coerce_datetime coerce_date encode_datetime encode_date
        coerce_str_list json_str_list].
  rewrite ?Hstr, ?Hd, ?(coerce_str_list_encode Hstr). reflexivity.
Qed.

Lemma load_speaker_file_total (acc : load_acc) (entry : string * json) (d : SpeakerData.t) :
  parse_file_speaker (snd entry) = Ok d -> exists acc', load_speaker_file acc entry = Ok acc'.
Proof.
  intros Hp. destruct acc as [db log]. unfold load_speaker_file. rewrite Hp. simpl. eauto.
Qed.

Lemma load_sessions_fold (l : list (string * json)) :
  NoDup (map fst l) -> Forall session_file_ok l ->
  forall acc, exists acc',
    fold_result load_session_file l acc = Ok acc' /\
    (forall n c d, In (n, c) l -> parse_file_session c = Ok d ->
       sessions (fst acc') !! SessionData.session_stub d = Some (Session.mk d false false)) /\
    (forall st, ~ In (String.append st ".json") (map fst l) ->
       sessions (fst acc') !! st = sessions (fst acc) !! st).
Proof.
  induction l as [|[n c] l IH]; intros Hnd Hok acc.
  - exists acc. split; [reflexivity|]. split; [intros ? ? ? []|auto].
  - simpl in Hnd. apply NoDup_cons in Hnd as [Hn Hnd]. rewrite list_elem_of_In in Hn.
    apply Forall_cons in Hok as [[d [Hd Hname]] Hok]. simpl in Hd, Hname.
    destruct (load_session_file_total acc (n, c) d Hd) as [acc1 E1].
    pose proof (load_session_file_shape _ _ _ E1) as (d' & idx & Hd' & Hacc1).
    simpl in Hd'. rewrite Hd in Hd'. injection Hd' as <-.
    destruct (IH Hnd Hok acc1) as (acc' & Hf & Hin & Hfr).
    exists acc'. cbn [fold_result]. rewrite E1. cbn [rbind].
    split; [exact Hf|]. split.
    + intros n' c' d' [Heq|Hin'] Hd'.
      * injection Heq as -> ->. rewrite Hd in Hd'. injection Hd' as <-.
        rewrite Hfr; [rewrite Hacc1; apply lookup_insert_eq|].
        rewrite <- Hname. exact Hn.
      * exact (Hin _ _ _ Hin' Hd').
    + intros st Hst. rewrite Hfr by (simpl in Hst; tauto). rewrite Hacc1. simpl.
      rewrite lookup_insert_ne; [reflexivity|].
      intros Heq. apply Hst. left. rewrite <- Heq. exact Hname.
Qed.

Lemma load_speakers_fold (l : list (string * json)) :
  NoDup (map fst l) -> Forall speaker_file_ok l ->
  forall acc, exists acc',
    fold_result load_speaker_file l acc = Ok acc' /\
    (forall n c d, In (n, c) l -> parse_file_speaker c = Ok d ->
       exists cs, speakers (fst acc') !! SpeakerData.speaker_stub d
                  = Some (Speaker.mk d cs false false)) /\
    (forall st, ~ In (String.append st ".json") (map fst l) ->
       speakers (fst acc') !! st = speakers (fst acc) !! st) /\
    sessions (fst acc') = sessions (fst acc).
Proof.
  induction l as [|[n c] l IH]; intros Hnd Hok acc.
  - exists acc. split; [reflexivity|]. split; [intros ? ? ? []|auto].
  - simpl in Hnd. apply NoDup_cons in Hnd as [Hn Hnd]. rewrite list_elem_of_In in Hn.
    apply Forall_cons in Hok as [[d [Hd Hname]] Hok]. simpl in Hd, Hname.
    destruct (load_speaker_file_total acc (n, c) d Hd) as [acc1 E1].
    pose proof (load_speaker_file_shape _ _ _ E1) as (d' & cs & Hd' & Hacc1).
    simpl in Hd'. rewrite Hd in Hd'. injection Hd' as <-.
    destruct (IH Hnd Hok acc1) as (acc' & Hf & Hin & Hfr & Hses).
    exists acc'. cbn [fold_result]. rewrite E1. cbn [rbind].
    split; [exact Hf|]. split; [|split].
    + intros n' c' d' [Heq|Hin'] Hd'.
      * injection Heq as -> ->. rewrite Hd in Hd'. injection Hd' as <-. exists cs.
        rewrite Hfr; [rewrite Hacc1; apply lookup_insert_eq|].
        rewrite <- Hname. exact Hn.
      * exact (Hin _ _ _ Hin' Hd').
    + intros st Hst. rewrite Hfr by (simpl in Hst; tauto). rewrite Hacc1. simpl.
      rewrite lookup_insert_ne; [reflexivity|].
      intros Heq. apply Hst. left. rewrite <- Heq. exact Hname.
    + rewrite Hses, Hacc1. reflexivity.
Qed.

Lemma listing_NoDup (m : gmap string json) (l : list (string * json)) :
  l ≡ₚ map_to_list m -> NoDup (map fst l).
Proof.
  intros Hl. apply NoDup_ListNoDup.
  apply (Permutation_NoDup (Permutation_sym (Permutation_map fst Hl))).
  apply NoDup_ListNoDup. rewrite <- fmap_list_map. apply NoDup_fst_map_to_list.
Qed.

Lemma listing_In (m : gmap string json) (l : list (string * json)) n c :
  l ≡ₚ map_to_list m -> In (n, c) l <-> m !! n = Some c.
Proof.
  intros Hl. rewrite <- elem_of_map_to_list, list_elem_of_In. split; intros Hin.
  - exact (Permutation_in _ Hl Hin).
  - exact (Permutation_in _ (Permutation_sym Hl) Hin).
Qed.

(** C7 (corrected).  Let [pydantic] read back what it writes for str,
    datetime and date values, let the store satisfy [keys_ok] (every
    store the program builds does), and let every wrapper's file name be
    a plain name (so that the flat map of [FS] is the file system
    Python writes to).  If every file already in sessions/
    and speakers/ is a valid record file named "<stub>.json", then
    loading from the directories [save] leaves, listed in any order,
    succeeds; each session whose wrapper had [updated = True] comes back
    under its stub with the very same record (so the same speakers and
    speaker_category lists, in the same order), likewise each speaker;
    and every loaded wrapper has [updated = False]. *)
Theorem save_then_load :
  forall (db : Database) (fs : FS) (ls1 ls2 : option (list (string * json))),
    (forall s, coerce_str (JStr s) = Some s) ->
    (forall x, coerce_datetime (encode_datetime x) = Some x) ->
    (forall x, coerce_date (encode_date x) = Some x) ->
    keys_ok db ->
    stubs_plain db = true ->
    (forall name content, fs_file fs Sessions name = Some content ->
       session_file_ok (name, content)) ->
    (forall name content, fs_file fs Speakers name = Some content ->
       speaker_file_ok (name, content)) ->
    listing_of (fs_sessions (run_save db fs)) ls1 ->
    listing_of (fs_speakers (run_save db fs)) ls2 ->
    exists db' log, load ls1 ls2 = Ok (db', log) /\
      (forall k s, sessions db !! k = Some s -> Session.updated s = true ->
         sessions db' !! k = Some (Session.mk (Session.data s) false false)) /\
      (forall k s, speakers db !! k = Some s -> Speaker.updated s = true ->
         exists cs, speakers db' !! k = Some (Speaker.mk (Speaker.data s) cs false false)) /\
      all_saved db'.
Proof.
  intros db fs ls1 ls2 Hstr Hdt Hd Hk _ Hwf1 Hwf2 Hl1 Hl2.
  pose proof (save_targets_NoDup db Hk) as Hnd.
  destruct (run_save_dirs db fs) as (m1 & m2 & Hrs).
  rewrite Hrs in Hl1, Hl2. simpl in Hl1, Hl2.
  destruct ls1 as [l1|]; [|contradiction]. destruct ls2 as [l2|]; [|contradiction].
  assert (Hm1 : forall n c, m1 !! n = Some c -> session_file_ok (n, c)).
  { intros n c Hc.
    assert (Hf : fs_file (run_save db fs) Sessions n = Some c) by (rewrite Hrs; exact Hc).
    unfold run_save in Hf. apply fold_write_origin in Hf as [Hin|Hf].
    - apply save_In_sessions in Hin as (k & s & _ & _ & -> & ->).
      exists (Session.data s). split; [apply parse_encode_session; assumption|reflexivity].
    - rewrite mkdirs_file in Hf. apply Hwf1. exact Hf. }
  assert (Hm2 : forall n c, m2 !! n = Some c -> speaker_file_ok (n, c)).
  { intros n c Hc.
    assert (Hf : fs_file (run_save db fs) Speakers n = Some c) by (rewrite Hrs; exact Hc).
    unfold run_save in Hf. apply fold_write_origin in Hf as [Hin|Hf].
    - apply save_In_speakers in Hin as (k & s & _ & _ & -> & ->).
      exists (Speaker.data s). split; [apply parse_encode_speaker; assumption|reflexivity].
    - rewrite mkdirs_file in Hf. apply Hwf2. exact Hf. }
  assert (Hok1 : Forall session_file_ok l1).
  { apply Forall_forall. intros [n c] Hin. apply list_elem_of_In in Hin. apply Hm1. exact (proj1 (listing_In m1 l1 n c Hl1) Hin). }
  assert (Hok2 : Forall speaker_file_ok l2).
  { apply Forall_forall. intros [n c] Hin. apply list_elem_of_In in Hin. apply Hm2. exact (proj1 (listing_In m2 l2 n c Hl2) Hin). }
  destruct (load_sessions_fold l1 (listing_NoDup m1 l1 Hl1) Hok1 (empty_db, []))
    as (acc & Hf1 & Hin1 & _).
  destruct (load_speakers_fold l2 (listing_NoDup m2 l2 Hl2) Hok2 acc)
    as (acc' & Hf2 & Hin2 & _ & Hses).
  assert (Hload : load (Some l1) (Some l2) = Ok acc').
  { unfold load. rewrite Hf1. cbn [rbind]. exact Hf2. }
  destruct acc' as [db' log]. exists db', log. split; [exact Hload|]. split; [|split].
  - intros k s Hs Hu.
    assert (Hw : In (Sessions, Session.filename s, encode_session (Session.data s)) (save db)).
    { apply save_In_sessions. eauto 10. }
    assert (Hfile : fs_file (run_save db fs) Sessions (Session.filename s)
                    = Some (encode_session (Session.data s))).
    { unfold run_save. apply fold_write_In; assumption. }
    rewrite Hrs in Hfile. simpl in Hfile.
    apply (listing_In m1 l1 _ _ Hl1) in Hfile.
    rewrite <- (proj1 Hk k s Hs). simpl in Hses. rewrite Hses.
    exact (Hin1 _ _ _ Hfile (parse_encode_session Hstr Hdt Hd (Session.data s))).
  - intros k s Hs Hu.
    assert (Hw : In (Speakers, Speaker.filename s, encode_speaker (Speaker.data s)) (save db)).
    { apply save_In_speakers. eauto 10. }
    assert (Hfile : fs_file (run_save db fs) Speakers (Speaker.filename s)
                    = Some (encode_speaker (Speaker.data s))).
    { unfold run_save. apply fold_write_In; assumption. }
    rewrite Hrs in Hfile. simpl in Hfile.
    apply (listing_In m2 l2 _ _ Hl2) in Hfile.
    rewrite <- (proj2 Hk k s Hs).
    exact (Hin2 _ _ _ Hfile (parse_encode_speaker Hstr Hd (Speaker.data s))).
  - eapply load_invariants; exact Hload.
Qed.

Lemma listing_of_map_to_list (d : option (gmap string json)) :
  listing_of d (option_map map_to_list d).
Proof. destruct d; simpl; reflexivity. Qed.

End Properties.

(** C10, counterexample.  A session loaded from disk ([updated = False])
    and then deleted, upserted again with the same record: the call
    returns false and [updated] stays False, although the wrapper is
    tombstoned. *)
Lemma tombstone_same_record_stays_not_updated :
  let d := sample_session "recital" "Recital" in
  let db := mk_db {[ "recital" := Session.mk d false true ]} ∅ ∅ in
  snd (update_session d db) = false
  /\ sessions (fst (update_session d db)) !! "recital" = Some (Session.mk d false true).
Proof. split; reflexivity. Qed.

(** C6, counterexample.  A session "x" loaded from sessions/x.json
    ([updated = False]), then a SessionCreated for the stub "./x": [save]
    writes "./x.json", which pathlib resolves to the very file
    sessions/x.json of the wrapper whose [updated] flag is false. *)
Lemma save_dot_stub_rewrites_saved_file :
  exists db0 log,
    load (Some [("x.json", encode_session (sample_session "x" "X"))]) None = Ok (db0, log)
    /\ sessions (fst (update_session (sample_session "./x" "X") db0)) !! "x"
       = Some (Session.mk (sample_session "x" "X") false false)
    /\ In (Sessions, "./x.json", encode_session (sample_session "./x" "X"))
          (save (fst (update_session (sample_session "./x" "X") db0)))
    /\ save_path Sessions "./x.json" = save_path Sessions "x.json".
Proof.
  destruct (load (Some [("x.json", encode_session (sample_session "x" "X"))]) None)
    as [[db0 log]|e] eqn:E; [|vm_compute in E; discriminate].
  exists db0, log. split; [reflexivity|].
  vm_compute in E. injection E as <- <-.
  split; [vm_compute; reflexivity|]. split; [|vm_compute; reflexivity].
  refine (proj2 (save_In_sessions _ "./x.json" _) _).
  exists "./x", (Session.new (sample_session "./x" "X")).
  split; [vm_compute; reflexivity|]. split; [reflexivity|]. split; reflexivity.
Qed.

(** C7, counterexample.  A store whose session "recital" was just
    created, saved into a data directory whose sessions/ already holds a
    file "old.json" that is no valid session record: loading back from
    that directory raises ValidationError, so no record comes back. *)
Lemma save_then_load_stale_file :
  let db := fst (update_session (sample_session "recital" "Recital") empty_db) in
  let fs := mk_fs (Some {[ "old.json" := JObj [("sessionStub", JStr "old")] ]}) (Some ∅) in
  reachable db
  /\ listing_of (fs_sessions (run_save db fs)) (option_map map_to_list (fs_sessions (run_save db fs)))
  /\ listing_of (fs_speakers (run_save db fs)) (option_map map_to_list (fs_speakers (run_save db fs)))
  /\ load (option_map map_to_list (fs_sessions (run_save db fs)))
          (option_map map_to_list (fs_speakers (run_save db fs))) = Err ValidationError.
Proof.
  cbv zeta. split; [|split; [apply listing_of_map_to_list|split; [apply listing_of_map_to_list|]]].
  - apply reach_update_session, (reach_load None None empty_db [SessionsNotFound; SpeakersNotFound]).
    reflexivity.
  - vm_compute. reflexivity.
Qed.

(* ------------------------------------------------------------------ *)
(** ** The theorems at concrete inputs *)

Lemma handle_event_invitee_unbound_changed_witness :
  handle_event (event_of "InviteeOrGuestAccepted" (JObj [("admissionItem", JStr "Other")]))
    (empty_db, [])
  = (Err (UnboundLocalError "changed"), (empty_db, [])).
Proof.
  apply (handle_event_invitee_unbound_changed _ (JObj [("admissionItem", JStr "Other")])
           (JStr "Other") []); reflexivity.
Defined.

Lemma handle_event_invalid_payload_witness :
  handle_event (event_of "SessionCreated" (JObj [("sessionStub", JStr "recital")])) (empty_db, [])
  = (Err ValidationError, (empty_db, [])).
Proof.
  apply (handle_event_invalid_payload _ "SessionCreated" [("sessionStub", JStr "recital")] []);
    [reflexivity | reflexivity |].
  left. split; [left; reflexivity|]. apply Exists_cons_hd. reflexivity.
Defined.

Lemma handle_event_unrecognized_kind_witness :
  handle_event (event_of "Ping" JNull) (empty_db, [])
  = (Err (ValueError_unrecognized (JStr "Ping")), (empty_db, [])).
Proof.
  apply (handle_event_unrecognized_kind _ (JStr "Ping") JNull []);
    [reflexivity | repeat constructor | reflexivity].
Defined.

Lemma save_writes_updated_only_witness :
  reachable (fst (update_session (sample_session "recital" "Recital") empty_db))
  /\ In (Sessions, "recital.json", encode_session (sample_session "recital" "Recital"))
        (save (fst (update_session (sample_session "recital" "Recital") empty_db))).
Proof.
  assert (Hr : reachable (fst (update_session (sample_session "recital" "Recital") empty_db))).
  { apply reach_update_session, (reach_load None None empty_db [SessionsNotFound; SpeakersNotFound]).
    reflexivity. }
  split; [exact Hr|].
  assert (Hp : stubs_plain (fst (update_session (sample_session "recital" "Recital") empty_db)) = true)
    by (vm_compute; reflexivity).
  destruct (proj1 save_writes_updated_only _ Hr Hp) as [Hs _].
  apply (proj2 (Hs _ _)). exists "recital", (Session.new (sample_session "recital" "Recital")).
  split; [vm_compute; reflexivity|]. split; [reflexivity|]. split; reflexivity.
Defined.

Lemma save_then_load_witness :
  exists db' log,
    load (option_map map_to_list
            (fs_sessions (run_save (fst (update_session (sample_session "recital" "Recital") empty_db))
                            (mk_fs None None))))
         (option_map map_to_list
            (fs_speakers (run_save (fst (update_session (sample_session "recital" "Recital") empty_db))
                            (mk_fs None None))))
    = Ok (db', log)
    /\ sessions db' !! "recital" = Some (Session.mk (sample_session "recital" "Recital") false false).
Proof.
  assert (Hstr : forall s, coerce_str (JStr s) = Some s) by reflexivity.
  assert (Hdt : forall x, coerce_datetime (encode_datetime x) = Some x)
    by (intros [w [o|]]; reflexivity).
  assert (Hd : forall x, coerce_date (encode_date x) = Some x) by reflexivity.
  assert (Hk : keys_ok (fst (update_session (sample_session "recital" "Recital") empty_db))).
  { apply reachable_keys_ok, reach_update_session,
      (reach_load None None empty_db [SessionsNotFound; SpeakersNotFound]).
    reflexivity. }
  assert (Hw1 : forall name content, fs_file (mk_fs None None) Sessions name = Some content ->
                  session_file_ok (name, content)) by discriminate.
  assert (Hw2 : forall name content, fs_file (mk_fs None None) Speakers name = Some content ->
                  speaker_file_ok (name, content)) by discriminate.
  assert (Hp : stubs_plain (fst (update_session (sample_session "recital" "Recital") empty_db)) = true)
    by (vm_compute; reflexivity).
  destruct (save_then_load _ _ _ _ Hstr Hdt Hd Hk Hp Hw1 Hw2
              (listing_of_map_to_list _) (listing_of_map_to_list _))
    as (db' & log & Hl & Hs & _ & _).
  exists db', log. split; [exact Hl|].
  apply (Hs "recital" (Session.new (sample_session "recital" "Recital")));
    [vm_compute; reflexivity | reflexivity].
Defined.

Lemma role_label_classifier_witness :
  category_of_label "Unknown Role" = None
  /\ classify_pair (∅, []) ("jane-doe", "Organist") = (<["jane-doe" := [PERFORMER]]> ∅, []).
Proof.
  destruct role_label_classifier as (_ & _ & _ & _ & _ & _ & _ & _ & Hother & Hknown & _).
  split.
  - apply Hother. simpl. intuition discriminate.
  - rewrite (Hknown _ _ _ _ PERFORMER) by reflexivity. reflexivity.
Defined.

Lemma external_names_symmetric_witness :
  parse_session_obj [("sessionStub", JStr "recital"); ("room", JStr "Nave")]
  = parse_session_obj [("sessionStub", JStr "recital")].
Proof.
  destruct external_names_symmetric as (_ & _ & _ & _ & Hses & _).
  apply Hses. intros f Hf. simpl in Hf.
  repeat destruct Hf as [<-|Hf]; try contradiction; reflexivity.
Defined.

Lemma tombstone_never_cleared_witness :
  snd (update_session (sample_session "recital" "Recital, second night")
         (mk_db {[ "recital" := Session.mk (sample_session "recital" "Recital") false true ]} ∅ ∅))
  = true
  /\ sessions (fst (update_session (sample_session "recital" "Recital, second night")
                   (mk_db {[ "recital" := Session.mk (sample_session "recital" "Recital") false true ]}
                      ∅ ∅))) !! "recital"
  = Some (Session.mk (sample_session "recital" "Recital, second night") true true).
Proof.
  destruct (tombstone_never_cleared []
              (mk_db {[ "recital" := Session.mk (sample_session "recital" "Recital") false true ]} ∅ ∅)
              "recital") as (_ & _ & Hupd & _).
  rewrite (Hupd _ (Session.mk (sample_session "recital" "Recital") false true));
    [vm_compute; split; reflexivity | reflexivity | vm_compute; reflexivity | reflexivity].
Defined.

(* ------------------------------------------------------------------ *)
(** ** Further properties of the pages, [slugify] and the endpoint *)


Lemma ascii_compare_N (a b : ascii) :
  Ascii.compare a b = N.compare (N_of_ascii a) (N_of_ascii b).
Proof. reflexivity. Qed.

Lemma string_leb_cons (a b : ascii) (s t : string) :
  String.leb (String a s) (String b t) = true <->
  (N_of_ascii a < N_of_ascii b)%N \/ (a = b /\ String.leb s t = true).
Proof.
  unfold String.leb. simpl. rewrite ascii_compare_N.
  destruct (N.compare_spec (N_of_ascii a) (N_of_ascii b)) as [E|E|E].
  - assert (a = b) by (rewrite <- (ascii_N_embedding a), <- (ascii_N_embedding b), E; reflexivity).
    subst. split; [right; split; auto | intros [?|[_ ?]]; [lia|auto]].
  - split; [left; lia | auto].
  - split; [discriminate | intros [?|[-> _]]; lia].
Qed.

Lemma str_le_trans : Transitive str_le.
Proof.
  unfold str_le. intros a. induction a as [|x a IH]; intros b c Hab Hbc.
  - destruct c; reflexivity.
  - destruct b as [|y b]; [discriminate|]. destruct c as [|z c]; [discriminate|].
    apply string_leb_cons in Hab, Hbc. apply string_leb_cons.
    destruct Hab as [Hab|[<- Hab]], Hbc as [Hbc|[<- Hbc]].
    + left; lia.
    + left; exact Hab.
    + left; exact Hbc.
    + right; split; [reflexivity | exact (IH _ _ Hab Hbc)].
Qed.

Lemma str_le_total : Total str_le.
Proof. intros a b. apply String.leb_total. Qed.

Lemma str_le_antisym : AntiSymm (=) str_le.
Proof. intros a b. apply String.leb_antisym. Qed.

Lemma sort_links_perm (l1 l2 : list string) :
  l1 ≡ₚ l2 -> merge_sort str_le l1 = merge_sort str_le l2.
Proof.
  intros Hp.
  apply (@Sorted_unique _ str_le str_le_trans str_le_antisym).
  - apply (@Sorted_merge_sort _ _ _ str_le_total).
  - apply (@Sorted_merge_sort _ _ _ str_le_total).
  - by rewrite !merge_sort_Permutation.
Qed.

(** [index_page] sorts its links before writing them: two link lists
    that are permutations of each other give the same page. *)
Theorem index_page_order_independent (path title : string) (links1 links2 : list string) :
  links1 ≡ₚ links2 -> index_page path title links1 = index_page path title links2.
Proof. intros Hp. unfold index_page. by rewrite (sort_links_perm _ _ Hp). Qed.

Lemma dash_not_word : is_word_char "-" = false.
Proof. reflexivity. Qed.

Lemma rstrip_dash_cons_word (c : ascii) (z : string) :
  is_word_char c = true -> rstrip_dash (String c z) = String c (rstrip_dash z).
Proof.
  intros Hc. simpl. destruct (rstrip_dash z); [|reflexivity].
  destruct (Ascii.eqb_spec c "-"); [subst; discriminate | reflexivity].
Qed.

Lemma split_nonword_cons (s : string) : exists p ps, split_nonword s = p :: ps.
Proof.
  induction s as [|c s [p [ps IH]]]; simpl; [eauto|].
  rewrite IH. destruct (is_word_char c); eauto.
Qed.

(** Every piece holds word characters only. *)
Lemma split_nonword_words (s : string) :
  Forall (fun w => forall c w', w = String c w' -> is_word_char c = true) (split_nonword s).
Proof.
  induction s as [|c s IH]; simpl.
  - constructor; [discriminate | constructor].
  - destruct (split_nonword_cons s) as (p & ps & E). rewrite E in IH |- *.
    inversion IH as [|? ? Hp Hps]; subst.
    destruct (is_word_char c) eqn:Hc.
    + constructor; [intros c' w' [= <- _]; exact Hc | exact Hps].
    + constructor; [discriminate | constructor; assumption].
Qed.

Lemma concat_dash_empty (ws : list string) :
  Forall (fun w => w <> EmptyString) ws ->
  String.concat "-" ws = EmptyString -> ws = [].
Proof.
  intros Hws. destruct ws as [|w [|w2 ws]]; simpl; [done| |].
  - inversion Hws; subst; done.
  - inversion Hws; subst. destruct w; [done|discriminate].
Qed.

Lemma word_runs_nonempty (s : string) : Forall (fun w => w <> EmptyString) (word_runs s).
Proof.
  unfold word_runs. induction (split_nonword s) as [|w ws IH]; simpl; [constructor|].
  destruct (String.eqb_spec w EmptyString); simpl; [exact IH|constructor; assumption].
Qed.

Lemma str_append_nil (t : string) : EmptyString ++ t = t.
Proof. reflexivity. Qed.

Lemma str_append_cons (c : ascii) (s t : string) : String c s ++ t = String c (s ++ t).
Proof. reflexivity. Qed.

Lemma str_append_empty_r (s : string) : s ++ EmptyString = s.
Proof. induction s as [|c s IH]; [done|by rewrite str_append_cons, IH]. Qed.

Lemma str_append_assoc (a b c : string) : (a ++ b) ++ c = a ++ (b ++ c).
Proof. induction a as [|x a IH]; [done|by rewrite !str_append_cons, IH]. Qed.

Lemma concat_dash_cons (w : string) (ws : list string) :
  String.concat "-" (w :: ws) =
  w ++ match ws with [] => EmptyString | _ => "-" ++ String.concat "-" ws end.
Proof. destruct ws; simpl; [by rewrite str_append_empty_r|reflexivity]. Qed.

Lemma filter_nonempty_concat_ne (ws : list string) :
  List.filter (fun w => negb (String.eqb w EmptyString)) ws <> [] ->
  String.concat "-" (List.filter (fun w => negb (String.eqb w EmptyString)) ws) <> EmptyString.
Proof.
  intros Hne Hc. apply Hne. apply (concat_dash_empty _); [|exact Hc].
  clear Hne Hc. induction ws as [|w ws IH]; simpl; [constructor|].
  destruct (String.eqb_spec w EmptyString); simpl; [exact IH|constructor; assumption].
Qed.

(** [rstrip_dash] of the substitution, started inside or outside a run. *)
Lemma slug_sub_rstrip (s : string) :
  rstrip_dash (slug_sub true s) = String.concat "-" (word_runs s) /\
  rstrip_dash (slug_sub false s) =
    match split_nonword s with
    | EmptyString :: _ =>
        match String.concat "-" (word_runs s) with
        | EmptyString => EmptyString
        | t => "-" ++ t
        end
    | _ => String.concat "-" (word_runs s)
    end.
Proof.
  induction s as [|c s [IHt IHf]]; [split; reflexivity|].
  unfold word_runs in *.
  destruct (split_nonword_cons s) as (p & ps & E). rewrite E in IHt, IHf.
  cbn [slug_sub split_nonword]. rewrite E.
  set (F := List.filter (fun w => negb (String.eqb w EmptyString))) in *.
  destruct (is_word_char c) eqn:Hc.
  - rewrite !rstrip_dash_cons_word by exact Hc. rewrite IHf.
    assert (HF : F (String c p :: ps) = String c p :: F ps) by reflexivity.
    rewrite HF, concat_dash_cons.
    destruct p as [|a p].
    + assert (HF0 : F (EmptyString :: ps) = F ps) by reflexivity.
      rewrite HF0.
      destruct (F ps) as [|w ws] eqn:Eps; [split; reflexivity|].
      pose proof (filter_nonempty_concat_ne ps) as Hne. fold F in Hne. rewrite Eps in Hne.
      destruct (String.concat "-" (w :: ws)) eqn:Ec; [exfalso; apply Hne; congruence|].
      split; reflexivity.
    + assert (HFa : F (String a p :: ps) = String a p :: F ps) by reflexivity.
      rewrite HFa, concat_dash_cons. split; reflexivity.
  - assert (HF0 : F (EmptyString :: p :: ps) = F (p :: ps)) by reflexivity.
    rewrite HF0, IHt. split; [reflexivity|].
    cbn [rstrip_dash]. rewrite IHt.
    destruct (String.concat "-" (F (p :: ps))); reflexivity.
Qed.

Lemma word_runs_words (s : string) :
  Forall (fun w => exists c w', w = String c w' /\ is_word_char c = true) (word_runs s).
Proof.
  unfold word_runs. pose proof (split_nonword_words s) as Hw.
  induction (split_nonword s) as [|w ws IH]; simpl; [constructor|].
  inversion Hw as [|? ? Hw1 Hws]; subst.
  destruct (String.eqb_spec w EmptyString); simpl; [exact (IH Hws)|].
  constructor; [|exact (IH Hws)].
  destruct w as [|c w']; [done|]. exists c, w'. split; [done|]. exact (Hw1 c w' eq_refl).
Qed.

Lemma lstrip_concat_runs (t : string) :
  lstrip_dash (String.concat "-" (word_runs t)) = String.concat "-" (word_runs t).
Proof.
  pose proof (word_runs_words t) as Hw.
  destruct (word_runs t) as [|w ws]; [reflexivity|].
  inversion Hw as [|? ? (c & w' & -> & Hc) _]; subst.
  rewrite concat_dash_cons, str_append_cons. cbn [lstrip_dash].
  destruct (Ascii.eqb_spec c "-"); [subst; discriminate|reflexivity].
Qed.

(** [slugify] lower-cases its input and joins its maximal runs of word
    characters ([A-Za-z0-9_]) with single dashes. *)
Theorem slugify_word_runs (s : string) :
  slugify s = String.concat "-" (word_runs (str_lower s)).
Proof.
  unfold slugify, strip_dash. destruct (slug_sub_rstrip (str_lower s)) as [_ ->].
  destruct (split_nonword (str_lower s)) as [|[|a p] ps]; try apply lstrip_concat_runs.
  destruct (String.concat "-" (word_runs (str_lower s))) eqn:E; [reflexivity|].
  rewrite <- E at 2. rewrite <- (lstrip_concat_runs (str_lower s)), E. reflexivity.
Qed.

Lemma ascii_lower_idem (c : ascii) : ascii_lower (ascii_lower c) = ascii_lower c.
Proof. destruct c as [[] [] [] [] [] [] [] []]; reflexivity. Qed.

Lemma is_word_char_lower (c : ascii) : is_word_char (ascii_lower c) = is_word_char c.
Proof. destruct c as [[] [] [] [] [] [] [] []]; reflexivity. Qed.

Lemma str_lower_idem (s : string) : str_lower (str_lower s) = str_lower s.
Proof. induction s as [|c s IH]; simpl; [done|by rewrite ascii_lower_idem, IH]. Qed.

Lemma str_lower_app (a b : string) : str_lower (a ++ b) = str_lower a ++ str_lower b.
Proof. induction a as [|c a IH]; [done|]. rewrite str_append_cons. simpl. by rewrite IH. Qed.

Lemma split_nonword_lower_fixed (t : string) :
  str_lower t = t -> Forall (fun w => str_lower w = w) (split_nonword t).
Proof.
  induction t as [|c t IH]; simpl; intros Ht; [constructor; [done|constructor]|].
  injection Ht as Hc Ht. specialize (IH Ht).
  destruct (split_nonword_cons t) as (p & ps & E). rewrite E in IH |- *.
  inversion IH as [|? ? Hp Hps]; subst.
  destruct (is_word_char c); constructor; simpl; try congruence; try constructor; assumption.
Qed.

Lemma split_nonword_single (t : string) :
  Forall (fun w => split_nonword w = [w]) (split_nonword t).
Proof.
  induction t as [|c t IH]; simpl; [constructor; [done|constructor]|].
  destruct (split_nonword_cons t) as (p & ps & E). rewrite E in IH |- *.
  inversion IH as [|? ? Hp Hps]; subst.
  destruct (is_word_char c) eqn:Hc; constructor; simpl; try rewrite Hc, Hp; try constructor; done.
Qed.

Lemma split_nonword_app_word (a b : string) :
  split_nonword a = [a] ->
  split_nonword (a ++ b) =
    match split_nonword b with q :: qs => (a ++ q) :: qs | [] => [a] end.
Proof.
  induction a as [|c a IH]; intros Ha.
  - rewrite str_append_nil. destruct (split_nonword_cons b) as (q & qs & ->). reflexivity.
  - simpl in Ha. destruct (split_nonword_cons a) as (p & ps & E). rewrite E in Ha.
    destruct (is_word_char c) eqn:Hc; [|discriminate].
    injection Ha as -> ->.
    rewrite str_append_cons. simpl. rewrite Hc, IH by exact E.
    destruct (split_nonword_cons b) as (q & qs & ->). reflexivity.
Qed.

Lemma split_nonword_concat (ws : list string) :
  ws <> [] -> Forall (fun w => split_nonword w = [w]) ws ->
  split_nonword (String.concat "-" ws) = ws.
Proof.
  induction ws as [|w [|w2 ws] IH]; intros Hne Hws; [done| |].
  - inversion Hws; subst. simpl. assumption.
  - inversion Hws as [|? ? Hw Hws']; subst.
    rewrite concat_dash_cons, split_nonword_app_word by exact Hw.
    rewrite (str_append_cons "-" EmptyString), str_append_nil. cbn [split_nonword]. rewrite dash_not_word.
    rewrite IH by (done || exact Hws'). rewrite str_append_empty_r. reflexivity.
Qed.

Lemma str_lower_concat (ws : list string) :
  Forall (fun w => str_lower w = w) ws ->
  str_lower (String.concat "-" ws) = String.concat "-" ws.
Proof.
  induction ws as [|w [|w2 ws] IH]; intros Hws; [done| |].
  - inversion Hws; subst. simpl. assumption.
  - inversion Hws as [|? ? Hw Hws']; subst.
    rewrite concat_dash_cons, str_lower_app, Hw. f_equal.
    rewrite str_append_cons. simpl. f_equal. exact (IH Hws').
Qed.

Lemma filter_sub {A} (P : A -> Prop) (f : A -> bool) (l : list A) :
  Forall P l -> Forall P (List.filter f l).
Proof.
  induction l as [|x l IH]; intros Hl; simpl; [constructor|].
  inversion Hl; subst. destruct (f x); [constructor|]; auto.
Qed.

Lemma filter_all_nonempty (ws : list string) :
  Forall (fun w => w <> EmptyString) ws ->
  List.filter (fun w => negb (String.eqb w EmptyString)) ws = ws.
Proof.
  induction ws as [|w ws IH]; intros Hws; simpl; [done|].
  inversion Hws; subst. destruct (String.eqb_spec w EmptyString); [done|]. simpl. f_equal; auto.
Qed.

(** [slugify] is idempotent, and lower-casing its input first does not
    change its result. *)
Theorem slugify_idempotent (s : string) :
  slugify (slugify s) = slugify s /\ slugify (str_lower s) = slugify s.
Proof.
  split; [|by rewrite !slugify_word_runs, str_lower_idem].
  rewrite (slugify_word_runs s). rewrite slugify_word_runs.
  set (W := word_runs (str_lower s)).
  assert (Hlow : Forall (fun w => str_lower w = w) W).
  { apply filter_sub, split_nonword_lower_fixed, str_lower_idem. }
  assert (Hsingle : Forall (fun w => split_nonword w = [w]) W) by apply filter_sub, split_nonword_single.
  rewrite str_lower_concat by exact Hlow.
  destruct W as [|w ws] eqn:EW; [reflexivity|].
  unfold word_runs at 1. rewrite split_nonword_concat by (done || exact Hsingle).
  rewrite filter_all_nonempty; [reflexivity|].
  rewrite <- EW. apply word_runs_nonempty.
Qed.

Lemma word_runs_nil (t : string) :
  word_runs t = [] <-> Forall (fun c => is_word_char c = false) (list_ascii_of_string t).
Proof.
  unfold word_runs. induction t as [|c t IH]; simpl; [split; [constructor|done]|].
  destruct (split_nonword_cons t) as (p & ps & E). rewrite E in IH |- *.
  destruct (is_word_char c) eqn:Hc.
  - split; [discriminate|]. intros Hf. inversion Hf; congruence.
  - simpl. rewrite IH. split; [intros H; constructor; assumption|intros H; inversion H; assumption].
Qed.

(** [slugify] returns the empty string exactly when its input holds no
    word character. *)
Theorem slugify_empty (s : string) :
  slugify s = EmptyString <-> Forall (fun c => is_word_char c = false) (list_ascii_of_string s).
Proof.
  rewrite slugify_word_runs.
  transitivity (word_runs (str_lower s) = []).
  - split; [apply concat_dash_empty, word_runs_nonempty | intros ->; reflexivity].
  - rewrite word_runs_nil. clear. induction s as [|c s IH]; simpl; [done|].
    cbn [str_lower list_ascii_of_string]. rewrite !Forall_cons, is_word_char_lower, IH. reflexivity.
Qed.

Lemma concat_nil_cons (x : string) (xs : list string) :
  String.concat "" (x :: xs) = x ++ String.concat "" xs.
Proof. destruct xs; [by rewrite str_append_empty_r|reflexivity]. Qed.

Lemma fold_left_str_append {B} (h : string -> B -> string) (g : B -> string) (l : list B) :
  (forall acc x, h acc x = acc ++ g x) ->
  forall acc, fold_left h l acc = acc ++ String.concat "" (map g l).
Proof.
  intros Hh. induction l as [|x l IH]; intros acc; cbn [fold_left map].
  - by rewrite str_append_empty_r.
  - rewrite IH, Hh, concat_nil_cons. apply str_append_assoc.
Qed.

Lemma fold_left_pair_fst {B T} (h : string * T -> B -> string * T) (g : B -> string) (l : list B) :
  (forall acc t x, fst (h (acc, t) x) = acc ++ g x) ->
  forall acc t, fst (fold_left h l (acc, t)) = acc ++ String.concat "" (map g l).
Proof.
  intros Hh. induction l as [|x l IH]; intros acc t; cbn [fold_left map].
  - by rewrite str_append_empty_r.
  - destruct (h (acc, t) x) as [a' t'] eqn:E.
    rewrite IH. specialize (Hh acc t x). rewrite E in Hh. simpl in Hh. subst a'.
    rewrite concat_nil_cons. apply str_append_assoc.
Qed.

Lemma map_li_items {B} (g : B -> string) (l : list B) :
  (forall x, li_item (g x)) -> Forall li_item (map g l).
Proof. intros Hg. apply Forall_forall. intros i Hi. apply list_elem_of_In in Hi. apply in_map_iff in Hi as (x & <- & _). apply Hg. Qed.

(** For a speaker presenting at some session, the session list of the
    speaker page is [<ul>] followed by one [<li>] item per stub of
    [presenter_at], and no closing [</ul>]. *)
Theorem speaker_sessions_unclosed (base_url : string) (speaker : Speaker.t) (database : Database) :
  SpeakerData.presenter_at (Speaker.data speaker) <> [] ->
  exists items,
    speaker_sessions base_url speaker database = "<ul>" ++ String.concat "" items
    /\ List.length items = List.length (SpeakerData.presenter_at (Speaker.data speaker))
    /\ Forall li_item items.
Proof.
  intros Hne. unfold speaker_sessions.
  set (g := fun stub => match sessions database !! stub with
                        | Some session => "<li>" ++ Session_link base_url session ++ "</li>"
                        | None => "<li>(unknown session with identifier " ++ stub ++ ")</li>"
                        end).
  exists (map g (SpeakerData.presenter_at (Speaker.data speaker))).
  destruct (SpeakerData.presenter_at (Speaker.data speaker)) as [|x l]; [done|].
  split; [|split].
  - apply fold_left_str_append. intros acc stub. unfold g. destruct (_ !! stub); reflexivity.
  - apply length_map.
  - apply map_li_items. intros stub. unfold g. destruct (_ !! stub) as [session|].
    + exists (Session_link base_url session). reflexivity.
    + exists ("(unknown session with identifier " ++ stub ++ ")"). rewrite !str_append_assoc. reflexivity.
Qed.

(** For a session with some speaker, the speaker section of the session
    page is headed "People" whatever the speakers' categories, and lists
    one [<li>] item per speaker stub inside [<ul>] ... [</ul>]. *)
Theorem session_speakers_always_people (base_url : string) (session : Session.t) (database : Database) :
  SessionData.speakers (Session.data session) <> [] ->
  exists items,
    session_page_speakers base_url session database =
      "<h2>People</h2>" ++ nl ++ "<ul>" ++ String.concat "" items ++ "</ul>" ++ nl
    /\ List.length items = List.length (SessionData.speakers (Session.data session))
    /\ Forall li_item items.
Proof.
  intros Hne. unfold session_page_speakers, session_speakers.
  set (g := fun stub => match speakers database !! stub with
                        | Some speaker => "<li>" ++ Speaker_link base_url speaker ++ "</li>"
                        | None => "<li>(unknown speaker with identifier " ++ stub ++ ")</li>"
                        end).
  exists (map g (SessionData.speakers (Session.data session))).
  destruct (SessionData.speakers (Session.data session)) as [|x l]; [done|].
  match goal with |- context [fold_left ?h (x :: l) ("<ul>", ?t0)] =>
    assert (Hf : fst (fold_left h (x :: l) ("<ul>", t0)) = "<ul>" ++ String.concat "" (map g (x :: l)))
      by (apply fold_left_pair_fst; intros acc t stub; unfold g; destruct (_ !! stub); reflexivity);
    destruct (fold_left h (x :: l) ("<ul>", t0)) as [html types]
  end.
  simpl in Hf. subst html.
  split; [|split].
  - cbn -[String.append String.concat map nl]. rewrite !str_append_assoc. reflexivity.
  - apply length_map.
  - apply map_li_items. intros stub. unfold g. destruct (_ !! stub) as [speaker|].
    + exists (Speaker_link base_url speaker). reflexivity.
    + exists ("(unknown speaker with identifier " ++ stub ++ ")"). rewrite !str_append_assoc. reflexivity.
Qed.

Section Extras.
Context `{FieldCodec}.

Lemma is_str_eq (v : json) (lit : string) : is_str v lit = true -> v = JStr lit.
Proof. destruct v; simpl; try discriminate. intros E. apply String.eqb_eq in E. by subst. Qed.

(** What [handle_event] may do to the state: on an error the store is
    unchanged; on success it is either unchanged with result False or the
    result of one store operation; and the notifications sent are
    unchanged except for one more, the first message of an
    InviteeOrGuestAccepted event whose admission item is the circle's,
    and the call then raises UnboundLocalError. *)
Theorem handle_event_effects (event : json) (db db' : Database) (sent sent' : list json)
    (r : result bool) :
  handle_event event (db, sent) = (r, (db', sent')) ->
  (forall e, r = Err e -> db' = db) /\
  (forall c, r = Ok c -> (db' = db /\ c = false) \/ exists op, apply_op op db = (db', c)) /\
  (sent' = sent \/
   (r = Err (UnboundLocalError "changed") /\
    exists msgs m rest,
      getitem event "eventType" = Ok (JStr "InviteeOrGuestAccepted") /\
      getitem event "message" = Ok msgs /\ unpack_first msgs = Ok (m, rest) /\
      getitem m "admissionItem" = Ok (JStr circle_admission_item) /\
      sent' = app sent [m])).
Proof.
  intros Hh.
  unfold handle_event, bind, lift, ret, raise, on_db, notify_about_circle_registration in Hh.
  repeat (case_match; simplify_eq/=).
  all: split; [intros ? ?; simplify_eq; done|].
  all: split; [intros ? ?; simplify_eq; first
         [ left; done
         | right; solve [ eexists (OpUpdateSession _); simpl; eassumption
                        | eexists (OpUpdateSpeaker _); simpl; eassumption
                        | eexists (OpDeleteSession _); simpl; eassumption
                        | eexists (OpDeleteSpeaker _); simpl; eassumption ] ]|].
  all: first [left; done | right; split; [done|]].
  repeat match goal with H : is_str _ _ = true |- _ => apply is_str_eq in H; subst end.
  match goal with H : unpack_first _ = Ok ?p |- _ => destruct p end.
  do 3 eexists. repeat split; eassumption.
Qed.

(** A call that returns True either came from an upsert event kind or
    applied a deletion. *)
Lemma handle_event_true_cases (event : json) (db db' : Database) (sent sent' : list json) :
  handle_event event (db, sent) = (Ok true, (db', sent')) ->
  sent' = sent /\
  ((exists k, In k ["SessionCreated"; "SessionUpdated"; "SpeakerCreated"; "SpeakerUpdated"]
              /\ getitem event "eventType" = Ok (JStr k))
   \/ exists op, is_delete op = true /\ db' = fst (apply_op op db)).
Proof.
  intros Hh.
  unfold handle_event, bind, lift, ret, raise, on_db, notify_about_circle_registration in Hh.
  repeat (case_match; simplify_eq/=).
  all: split; [done|].
  all: repeat match goal with H : is_str _ _ = true |- _ => apply is_str_eq in H; subst end.
  all: try (left; eexists; split; [|reflexivity]; simpl; tauto).
  all: try match goal with H : delete_session ?s ?d = _ |- _ => right; exists (OpDeleteSession s); simpl; rewrite H; done end.
  all: try match goal with H : delete_speaker ?s ?d = _ |- _ => right; exists (OpDeleteSpeaker s); simpl; rewrite H; done end.
Qed.


Lemma update_session_true_facts (db db1 : Database) (d : SessionData.t) :
  all_saved db -> update_session d db = (db1, true) ->
  (exists s1, sessions db1 !! SessionData.session_stub d = Some s1
              /\ Session.data s1 = d /\ Session.updated s1 = true) /\
  speakers db1 = speakers db /\
  (forall k s, sessions db1 !! k = Some s -> Session.updated s = true ->
               k = SessionData.session_stub d).
Proof.
  intros [Hs1 Hs2] Hu. pose proof (update_session_cases db d) as Hc. simpl in Hc.
  rewrite Hu in Hc. simpl in Hc.
  destruct (sessions db !! SessionData.session_stub d) as [e|] eqn:Hk;
    [destruct (SessionData.eqb (Session.data e) d)|].
  - discriminate.
  - destruct Hc as (Hl & _ & Hsp & _ & Hoth). split; [eexists; split; [exact Hl|done]|].
    split; [exact Hsp|]. intros k s Hks Hup.
    destruct (decide (k = SessionData.session_stub d)) as [->|Hne]; [done|].
    rewrite Hoth in Hks by exact Hne. rewrite (Hs1 _ _ Hks) in Hup. discriminate.
  - destruct Hc as (Hl & _ & Hsp & _ & Hoth). split; [eexists; split; [exact Hl|done]|].
    split; [exact Hsp|]. intros k s Hks Hup.
    destruct (decide (k = SessionData.session_stub d)) as [->|Hne]; [done|].
    rewrite Hoth in Hks by exact Hne. rewrite (Hs1 _ _ Hks) in Hup. discriminate.
Qed.

Lemma cvent_event_unchanged_cases (auth_token : string) (authorization : option string)
    (event : json) ls1 ls2 (fs : FS) (sent : list json) resp fs' sent' :
  cvent_event auth_token authorization event ls1 ls2 fs sent = (resp, fs', sent') ->
  fs' = fs \/
  (authorization = Some auth_token /\ resp = Resp200 /\
   exists db log db1, load ls1 ls2 = Ok (db, log) /\
     handle_event event (db, sent) = (Ok true, (db1, sent')) /\ fs' = run_save db1 fs).
Proof.
  unfold cvent_event. intros Hc.
  destruct event; try (injection Hc as _ <- _; left; reflexivity).
  case_decide as Ha; [|injection Hc as _ <- _; left; reflexivity].
  destruct (load ls1 ls2) as [[db log]|e] eqn:Hl; [|injection Hc as _ <- _; left; reflexivity].
  destruct (handle_event _ (db, sent)) as [[b|e] [db1 sent1]] eqn:Hh;
    [|injection Hc as _ <- _; left; reflexivity].
  destruct b; injection Hc as <- <- <-; [right|left; reflexivity].
  split; [exact Ha|]. split; [reflexivity|]. exists db, log, db1. auto.
Qed.

(** Through the endpoint, a file of the data directory changes only on
    a request with the right authorization whose event kind is one of
    the four upserts, and the response is then 200. *)
Theorem cvent_event_writes_only_on_upsert (auth_token : string) (authorization : option string)
    (event : json) ls1 ls2 (fs : FS) (sent : list json) resp fs' sent'
    (c : collection) (name : string) :
  cvent_event auth_token authorization event ls1 ls2 fs sent = (resp, fs', sent') ->
  fs_file fs' c name <> fs_file fs c name ->
  authorization = Some auth_token /\ resp = Resp200 /\
  exists k, In k ["SessionCreated"; "SessionUpdated"; "SpeakerCreated"; "SpeakerUpdated"]
            /\ getitem event "eventType" = Ok (JStr k).
Proof.
  intros Hc Hne.
  destruct (cvent_event_unchanged_cases _ _ _ _ _ _ _ _ _ _ Hc)
    as [->|(Ha & Hr & db & log & db1 & Hl & Hh & ->)]; [done|].
  split; [exact Ha|]. split; [exact Hr|].
  destruct (handle_event_true_cases _ _ _ _ _ Hh) as [_ [Hk|(op & Hop & ->)]]; [exact Hk|].
  exfalso. apply Hne.
  assert (Hsaved : all_saved (fst (apply_op op db))).
  { apply delete_keeps_all_saved; [exact Hop|]. exact (proj2 (load_invariants _ _ _ _ Hl)). }
  unfold run_save. rewrite (save_all_saved _ Hsaved). simpl. apply mkdirs_file.
Qed.

(** A SessionCreated or SessionUpdated event with a valid payload whose
    stub gives a plain file name, sent with the right authorization on
    data that loads: response 200, no notification, and the only file
    that may change is data_dir/sessions/<stub>.json, which then holds
    the encoded record. *)
Theorem cvent_event_session_upsert (auth_token : string) (kvs : list (string * json))
    ls1 ls2 (fs : FS) (sent : list json) (db : Database) log (et msgs m : json)
    (rest : list json) (d : SessionData.t) :
  load ls1 ls2 = Ok (db, log) ->
  getitem (JObj kvs) "eventType" = Ok et ->
  et = JStr "SessionCreated" \/ et = JStr "SessionUpdated" ->
  getitem (JObj kvs) "message" = Ok msgs ->
  unpack_first msgs = Ok (m, rest) ->
  SessionData_call m = Ok d ->
  plain_name (String.append (SessionData.session_stub d) ".json") = true ->
  let target := String.append (SessionData.session_stub d) ".json" in
  let '(resp, fs', sent') := cvent_event auth_token (Some auth_token) (JObj kvs) ls1 ls2 fs sent in
  save_path Sessions target = Some ["sessions"; target] /\
  resp = Resp200 /\ sent' = sent /\
  (forall c name, (c, name) <> (Sessions, target) -> fs_file fs' c name = fs_file fs c name) /\
  (snd (update_session d db) = true -> fs_file fs' Sessions target = Some (encode_session d)) /\
  (snd (update_session d db) = false -> fs' = fs).
Proof.
  intros Hl Het Hkind Hmsg Hun Hd Hplain target.
  assert (Hpath : save_path Sessions target = Some ["sessions"; target])
    by (apply plain_save_path; exact Hplain).
  assert (Hh : handle_event (JObj kvs) (db, sent)
               = (Ok (snd (update_session d db)), (fst (update_session d db), sent))).
  { unfold handle_event, bind, lift, ret, raise, on_db. rewrite Het, Hmsg, Hun.
    cbn -[update_session SessionData_call].
    destruct Hkind as [->| ->]; cbn -[update_session SessionData_call]; rewrite Hd;
      cbn -[update_session]; destruct (update_session d db); reflexivity. }
  unfold cvent_event. rewrite decide_True by reflexivity. rewrite Hl, Hh.
  destruct (load_invariants _ _ _ _ Hl) as [Hk Hsaved].
  destruct (update_session d db) as [db1 []] eqn:Hu; simpl; (split; [exact Hpath|]);
    [|split; [done|split; [done|split; [done|split; [discriminate|done]]]]].
  destruct (update_session_true_facts _ _ _ Hsaved Hu) as ((s1 & Hs1 & Hd1 & Hup1) & Hsp & Honly).
  pose proof (apply_op_keys_ok (OpUpdateSession d) db Hk) as Hk1. simpl in Hk1. rewrite Hu in Hk1. simpl in Hk1.
  split; [done|]. split; [done|]. split; [|split; [|discriminate]].
  - intros c name Hne. unfold run_save. rewrite fold_write_other; [apply mkdirs_file|].
    intros Hin. unfold write_targets in Hin. apply in_map_iff in Hin as ([[c' n] v] & Heq & Hw).
    simpl in Heq. injection Heq as -> ->. destruct c.
    + apply save_In_sessions in Hw as (k & s & Hks & Hus & Hn & _).
      pose proof (Honly k s Hks Hus) as ->. apply Hne. f_equal. subst name.
      unfold Session.filename. rewrite (proj1 Hk1 _ _ Hks). reflexivity.
    + apply save_In_speakers in Hw as (k & s & Hks & Hus & _).
      rewrite Hsp in Hks. rewrite (proj2 Hsaved _ _ Hks) in Hus. discriminate.
  - intros _. change (fs_file (run_save db1 fs) Sessions target = Some (encode_session d)).
    unfold run_save. apply fold_write_In; [apply save_targets_NoDup, Hk1|].
    apply save_In_sessions. exists (SessionData.session_stub d), s1.
    split; [exact Hs1|]. split; [exact Hup1|]. split; [|by rewrite Hd1].
    unfold Session.filename, target. f_equal. symmetry. exact (proj1 Hk1 _ _ Hs1).
Qed.

(** A registration for the circle admission item, sent with the right
    authorization on data that loads: the notification goes out, the
    response is 400 (UnboundLocalError on [changed]) and no file
    changes. *)
Theorem cvent_event_circle_registration (auth_token : string) (kvs : list (string * json))
    ls1 ls2 (fs : FS) (sent : list json) (db : Database) log (msgs m : json) (rest : list json) :
  load ls1 ls2 = Ok (db, log) ->
  getitem (JObj kvs) "eventType" = Ok (JStr "InviteeOrGuestAccepted") ->
  getitem (JObj kvs) "message" = Ok msgs ->
  unpack_first msgs = Ok (m, rest) ->
  getitem m "admissionItem" = Ok (JStr circle_admission_item) ->
  cvent_event auth_token (Some auth_token) (JObj kvs) ls1 ls2 fs sent
  = (Resp400 (UnboundLocalError "changed"), fs, app sent [m]).
Proof.
  intros Hl Het Hmsg Hun Hitem.
  unfold cvent_event. rewrite decide_True by reflexivity. rewrite Hl.
  unfold handle_event, bind, lift, ret, raise, on_db, notify_about_circle_registration.
  rewrite Het, Hmsg, Hun. simpl. rewrite Hitem. reflexivity.
Qed.


(** The Created and Updated kinds of a record are handled alike. *)
Theorem handle_event_created_is_updated (e1 e2 : json) (st : hstate) (kind : string * string) :
  In kind [("SessionCreated", "SessionUpdated"); ("SpeakerCreated", "SpeakerUpdated")] ->
  getitem e1 "eventType" = Ok (JStr (fst kind)) ->
  getitem e2 "eventType" = Ok (JStr (snd kind)) ->
  getitem e1 "message" = getitem e2 "message" ->
  handle_event e1 st = handle_event e2 st.
Proof.
  intros Hk H1 H2 Hm. unfold handle_event, bind, lift.
  rewrite H1, H2, Hm.
  destruct Hk as [<-|[<-|[]]]; reflexivity.
Qed.

(** Only the event type and the first item of the message list matter. *)
Theorem handle_event_first_message_only (e1 e2 : json) (st : hstate) (m : json)
    (rest1 rest2 : list json) :
  getitem e1 "eventType" = getitem e2 "eventType" ->
  getitem e1 "message" = Ok (JArr (m :: rest1)) ->
  getitem e2 "message" = Ok (JArr (m :: rest2)) ->
  handle_event e1 st = handle_event e2 st.
Proof.
  intros Ht H1 H2. unfold handle_event, bind, lift.
  rewrite Ht, H1, H2. reflexivity.
Qed.








Lemma load_cats_ok (ls1 ls2 : option (list (string * json))) db log :
  load ls1 ls2 = Ok (db, log) -> cats_ok db.
Proof.
  unfold load. intros Hl.
  destruct (match ls1 with Some l => _ | None => _ end) as [acc|e] eqn:E1;
    simpl in Hl; [|discriminate].
  assert (Hempty : speakers (fst acc) = ∅).
  { destruct ls1 as [l|]; [|injection E1 as <-; reflexivity].
    refine (fold_result_inv (fun a : load_acc => speakers (fst a) = ∅) _ _ l _ _ _ E1); [|reflexivity].
    intros a b a' Ha Hab. apply load_session_file_shape in Hab as (d & idx & _ & ->). exact Ha. }
  assert (HA : cats_ok (fst acc)).
  { intros k s Hs. rewrite Hempty, lookup_empty in Hs. discriminate. }
  change (cats_ok (fst (db, log))).
  destruct ls2 as [l|]; [|injection Hl as <-; exact HA].
  refine (fold_result_inv (fun a : load_acc => cats_ok (fst a)) _ _ l _ _ HA Hl).
  intros [db0 log0] b a' Ha Hab. unfold load_speaker_file in Hab.
  destruct (parse_file_speaker (snd b)) as [d|e]; simpl in Hab; [|discriminate].
  injection Hab as <-. intros k s. unfold set_speakers. cbn.
  rewrite lookup_insert. case_decide as Hk; [intros [= <-]; simpl; by subst k|].
  apply Ha.
Qed.

Lemma apply_op_cats_ok (op : store_op) (db : Database) :
  cats_ok db -> cats_ok (fst (apply_op op db)).
Proof.
  intros Hc. destruct op as [d|d|st|st]; simpl;
    [unfold update_session | unfold update_speaker | unfold delete_session
    | unfold delete_speaker];
    repeat case_match; unfold set_sessions, set_speakers; try exact Hc;
    intros k s; cbn; rewrite ?lookup_insert;
    (case_decide; [intros [= <-]; subst | apply Hc]); simpl;
    first [reflexivity | eapply Hc; eassumption].
Qed.

(** In every store the program builds, a speaker wrapper's categories
    are the entry of [speaker_categories] for its stub (none if the stub
    has no entry). *)
Theorem reachable_speaker_categories (db : Database) :
  reachable db ->
  forall k s, speakers db !! k = Some s ->
    Speaker.categories s = default [] (speaker_categories db !! k).
Proof.
  intros Hr. change (cats_ok db). induction Hr.
  - eapply load_cats_ok; eassumption.
  - exact (apply_op_cats_ok (OpUpdateSession d) db IHHr).
  - exact (apply_op_cats_ok (OpUpdateSpeaker d) db IHHr).
  - exact (apply_op_cats_ok (OpDeleteSession s) db IHHr).
  - exact (apply_op_cats_ok (OpDeleteSpeaker s) db IHHr).
Qed.

Lemma delete_session_again (stub : string) (db : Database) :
  delete_session stub (fst (delete_session stub db)) = delete_session stub db.
Proof.
  unfold delete_session. destruct (sessions db !! stub) as [e|] eqn:Hk; simpl; [|rewrite Hk; reflexivity].
  rewrite lookup_insert_eq. simpl. unfold set_sessions. simpl. rewrite insert_insert_eq. reflexivity.
Qed.

Lemma delete_speaker_again (stub : string) (db : Database) :
  delete_speaker stub (fst (delete_speaker stub db)) = delete_speaker stub db.
Proof.
  unfold delete_speaker. destruct (speakers db !! stub) as [e|] eqn:Hk; simpl; [|rewrite Hk; reflexivity].
  rewrite lookup_insert_eq. simpl. unfold set_speakers. simpl. rewrite insert_insert_eq. reflexivity.
Qed.

(** Delivering an event a second time, to the state the first delivery
    left, changes nothing; it returns True again only for a deletion. *)
Theorem handle_event_redelivery (event : json) (st st' : hstate) (c : bool) :
  handle_event event st = (Ok c, st') ->
  exists c', handle_event event st' = (Ok c', st') /\
    (c' = true -> exists k, In k ["SessionDeleted"; "SpeakerDeleted"]
                            /\ getitem event "eventType" = Ok (JStr k)).
Proof.
  destruct st as [db sent]. intros Hh.
  unfold handle_event, bind, lift, ret, raise, on_db, notify_about_circle_registration in Hh |- *.
  repeat (case_match; simplify_eq/=).
  all: repeat match goal with H : is_str _ _ = true |- _ => apply is_str_eq in H; subst end.
  all: try (exists false; split; [reflexivity|discriminate]).
  all: match goal with
       | H1 : update_session ?x ?d = (?d1, _), H2 : update_session ?x ?d1 = _ |- _ =>
           pose proof (update_session_again d x) as Ha; rewrite H1 in Ha; simpl in Ha;
           rewrite Ha in H2; injection H2 as <- <-; exists false; split; [reflexivity|discriminate]
       | H1 : update_speaker ?x ?d = (?d1, _), H2 : update_speaker ?x ?d1 = _ |- _ =>
           pose proof (update_speaker_again d x) as Ha; rewrite H1 in Ha; simpl in Ha;
           rewrite Ha in H2; injection H2 as <- <-; exists false; split; [reflexivity|discriminate]
       | H1 : delete_session ?x ?d = (?d1, ?c1), H2 : delete_session ?x ?d1 = _ |- _ =>
           pose proof (delete_session_again x d) as Ha; rewrite H1 in Ha; simpl in Ha;
           rewrite Ha in H2; injection H2 as <- <-; exists c1; split; [reflexivity|];
           intros _; exists "SessionDeleted"; split; [simpl; tauto|reflexivity]
       | H1 : delete_speaker ?x ?d = (?d1, ?c1), H2 : delete_speaker ?x ?d1 = _ |- _ =>
           pose proof (delete_speaker_again x d) as Ha; rewrite H1 in Ha; simpl in Ha;
           rewrite Ha in H2; injection H2 as <- <-; exists c1; split; [reflexivity|];
           intros _; exists "SpeakerDeleted"; split; [simpl; tauto|reflexivity]
       end.
Qed.

End Extras.

(* ------------------------------------------------------------------ *)
(** ** Further properties at concrete inputs *)

Definition sample_speaker : SpeakerData.t :=
  SpeakerData.mk ["recital"] "Organist of the cathedral." "Jane Doe" "Jane" "Doe"
    "jane-doe" "Organist" 738000%Z.

Definition empty_fs : FS := mk_fs (Some ∅) (Some ∅).

Lemma index_page_order_independent_witness :
  ["<a>b</a>"; "<a>a</a>"] ≡ₚ ["<a>a</a>"; "<a>b</a>"]
  /\ index_page "sessions/index.html" "Sessions" ["<a>b</a>"; "<a>a</a>"]
     = index_page "sessions/index.html" "Sessions" ["<a>a</a>"; "<a>b</a>"].
Proof.
  assert (Hp : ["<a>b</a>"; "<a>a</a>"] ≡ₚ ["<a>a</a>"; "<a>b</a>"]) by apply perm_swap.
  split; [exact Hp|apply (index_page_order_independent _ _ _ _ Hp)].
Defined.

Lemma speaker_sessions_unclosed_witness :
  exists items,
    speaker_sessions "/" (Speaker.new sample_speaker [PERFORMER]) empty_db
      = "<ul>" ++ String.concat "" items
    /\ List.length items = 1%nat /\ Forall li_item items.
Proof.
  apply (speaker_sessions_unclosed "/" (Speaker.new sample_speaker [PERFORMER]) empty_db).
  discriminate.
Defined.

Lemma session_speakers_always_people_witness :
  exists items,
    session_page_speakers "/" (Session.new (sample_session "recital" "Recital")) empty_db
      = "<h2>People</h2>" ++ nl ++ "<ul>" ++ String.concat "" items ++ "</ul>" ++ nl
    /\ List.length items = 2%nat /\ Forall li_item items.
Proof.
  apply (session_speakers_always_people "/" (Session.new (sample_session "recital" "Recital")) empty_db).
  discriminate.
Defined.

Lemma handle_event_effects_witness :
  let db' := fst (update_session (sample_session "recital" "Recital") empty_db) in
  handle_event (event_of "SessionCreated" sample_payload) (empty_db, []) = (Ok true, (db', []))
  /\ exists op, apply_op op empty_db = (db', true).
Proof.
  cbv zeta.
  assert (E : handle_event (event_of "SessionCreated" sample_payload) (empty_db, [])
              = (Ok true, (fst (update_session (sample_session "recital" "Recital") empty_db), [])))
    by reflexivity.
  split; [exact E|].
  destruct (handle_event_effects _ _ _ _ _ _ E) as (_ & Hok & _).
  destruct (Hok true eq_refl) as [[_ Hf]|Hop]; [discriminate|exact Hop].
Defined.

Lemma cvent_event_writes_only_on_upsert_witness :
  exists k, In k ["SessionCreated"; "SessionUpdated"; "SpeakerCreated"; "SpeakerUpdated"]
            /\ getitem (event_of "SessionCreated" sample_payload) "eventType" = Ok (JStr k).
Proof.
  assert (E : cvent_event "tok" (Some "tok") (event_of "SessionCreated" sample_payload)
                (Some []) (Some []) empty_fs []
              = (Resp200, run_save (fst (update_session (sample_session "recital" "Recital") empty_db))
                            empty_fs, [])) by reflexivity.
  apply (cvent_event_writes_only_on_upsert _ _ _ _ _ _ _ _ _ _ Sessions "recital.json" E).
  vm_compute. discriminate.
Defined.

Lemma cvent_event_session_upsert_witness :
  fs_file (snd (fst (cvent_event "tok" (Some "tok") (JObj [("eventType", JStr "SessionCreated"); ("message", JArr [sample_payload])])
                       (Some []) (Some []) empty_fs [])))
    Sessions "recital.json"
  = Some (encode_session (sample_session "recital" "Recital")).
Proof.
  pose proof (cvent_event_session_upsert "tok" [("eventType", JStr "SessionCreated"); ("message", JArr [sample_payload])] (Some []) (Some []) empty_fs [] empty_db []
                (JStr "SessionCreated") (JArr [sample_payload]) sample_payload []
                (sample_session "recital" "Recital")
                eq_refl eq_refl (or_introl eq_refl) eq_refl eq_refl eq_refl eq_refl) as Hc.
  cbv zeta in Hc. revert Hc.
  destruct (cvent_event "tok" (Some "tok") (JObj [("eventType", JStr "SessionCreated"); ("message", JArr [sample_payload])])
              (Some []) (Some []) empty_fs []) as [[resp fs'] sent'].
  intros (_ & _ & _ & _ & Ht & _). apply Ht. reflexivity.
Defined.

Lemma cvent_event_circle_registration_witness :
  cvent_event "tok" (Some "tok")
    (event_of "InviteeOrGuestAccepted" (JObj [("admissionItem", JStr circle_admission_item)]))
    (Some []) (Some []) empty_fs []
  = (Resp400 (UnboundLocalError "changed"), empty_fs,
     [JObj [("admissionItem", JStr circle_admission_item)]]).
Proof.
  apply (cvent_event_circle_registration "tok" _ (Some []) (Some []) empty_fs [] empty_db []
           (JArr [JObj [("admissionItem", JStr circle_admission_item)]])
           (JObj [("admissionItem", JStr circle_admission_item)]) []); reflexivity.
Defined.

Lemma handle_event_created_is_updated_witness :
  handle_event (event_of "SpeakerCreated" (encode_speaker sample_speaker)) (empty_db, [])
  = handle_event (event_of "SpeakerUpdated" (encode_speaker sample_speaker)) (empty_db, []).
Proof.
  apply (handle_event_created_is_updated _ _ _ ("SpeakerCreated", "SpeakerUpdated"));
    [simpl; right; left; reflexivity|reflexivity|reflexivity|reflexivity].
Defined.

Lemma handle_event_first_message_only_witness :
  handle_event (JObj [("eventType", JStr "SessionCreated");
                      ("message", JArr [sample_payload; JStr "ignored"])]) (empty_db, [])
  = handle_event (event_of "SessionCreated" sample_payload) (empty_db, []).
Proof.
  apply (handle_event_first_message_only _ _ _ sample_payload [JStr "ignored"] []); reflexivity.
Defined.

Lemma reachable_speaker_categories_witness :
  exists db log,
    load (Some [("recital.json", encode_session (sample_session "recital" "Recital"))]) None
      = Ok (db, log)
    /\ forall s, speakers (fst (update_speaker sample_speaker db)) !! "jane-doe" = Some s ->
                 Speaker.categories s = [PERFORMER].
Proof.
  destruct (load (Some [("recital.json", encode_session (sample_session "recital" "Recital"))]) None)
    as [[db log]|e] eqn:E; [|vm_compute in E; discriminate].
  exists db, log. split; [reflexivity|]. intros s Hs.
  rewrite (reachable_speaker_categories _ (reach_update_speaker _ _ (reach_load _ _ _ _ E))
             "jane-doe" s Hs).
  vm_compute in E. injection E as <- <-. vm_compute. reflexivity.
Defined.

Lemma handle_event_redelivery_witness :
  let st' := (fst (update_session (sample_session "recital" "Recital") empty_db), []) in
  exists c', handle_event (event_of "SessionCreated" sample_payload) st' = (Ok c', st').
Proof.
  cbv zeta.
  destruct (handle_event_redelivery (event_of "SessionCreated" sample_payload) (empty_db, [])
              (fst (update_session (sample_session "recital" "Recital") empty_db), []) true)
    as (c' & E & _); [reflexivity|].
  exists c'. exact E.
Defined.
